(** * The evaluator of the motion detection pipeline

    A shallow embedding of
    [lidar_motion_detection/src/evaluation/evaluator.cpp] and the
    properties of its per-frame evaluation: range filtering, confusion
    matrices per evaluation level, the derived metrics, the range buckets
    and the three output files. *)

From Stdlib Require Import ZArith List String Ascii Bool Lia.
From Stdlib Require Import Floats.SpecFloat.
From stdpp Require Import base gmap strings list fin_maps.

Local Open Scope Z_scope.

(** ** Machine integers *)

(** [uint] is a 32-bit unsigned integer: arithmetic is modulo [2^32]. *)
Module UInt.
Definition modulus : Z := 2 ^ 32.
Definition wrap (z : Z) : Z := z mod modulus.
Definition add (a b : Z) : Z := wrap (a + b).
Definition incr (a : Z) : Z := wrap (a + 1).
Definition in_range (z : Z) : Prop := 0 <= z < modulus.
End UInt.

(** [int] is a 32-bit signed integer. Overflow of a signed counter is not
    defined by the language; the model wraps in two's complement, and the
    statements about an [int] result say for which inputs it stays below
    [max]. *)
Module Int.
Definition max : Z := 2 ^ 31 - 1.
Definition wrap (z : Z) : Z := (z + 2 ^ 31) mod 2 ^ 32 - 2 ^ 31.
Definition incr (a : Z) : Z := wrap (a + 1).
End Int.

(** ** Single precision floating point

    [float] is IEEE 754 binary32: 24 bits of precision, infinities at
    exponent 128. The operations are those of the standard library's
    executable specification of IEEE arithmetic. *)
Module Float32.
Definition prec : Z := 24.
Definition emax : Z := 128.

Definition float : Type := spec_float.

Definition zero : float := S754_zero false.
(** The literal [1.f]. *)
Definition one : float := SFone prec emax.

(** [static_cast<float>(n)] for an integer [n]: the nearest binary32
    value, ties to even. *)
Definition of_Z (n : Z) : float := binary_normalize prec emax n 0 false.

Definition div (x y : float) : float := SFdiv prec emax x y.

(** [x <= y] and [x >= y]; both are false as soon as one side is a NaN. *)
Definition leb (x y : float) : bool :=
  match SFcompare x y with
  | Some (Lt | Eq) => true
  | _ => false
  end.
Definition geb (x y : float) : bool :=
  match SFcompare x y with
  | Some (Gt | Eq) => true
  | _ => false
  end.
End Float32.

Abbreviation float := Float32.float.

(** ** Points, clouds and configuration

    The fields of [PointInfo], [CloudInfo] and [Evaluator::Config] that the
    evaluator reads or writes. *)

Record PointInfo := mkPointInfo {
  distance_to_sensor : float;
  ready_for_evaluation : bool;
  ground_truth_dynamic : bool;
  ever_free_level_dynamic : bool;
  cluster_level_dynamic : bool;
  object_level_dynamic : bool
}.

Record CloudInfo := mkCloudInfo {
  timestamp : Z;
  points : list PointInfo
}.

Record Config := mkConfig {
  output_directory : string;
  min_range : float;
  max_range : float;
  evaluate_point_level : bool;
  evaluate_cluster_level : bool;
  evaluate_object_level : bool;
  evaluate_ranges : bool
}.

(** ** Metrics *)

(** [Evaluator::computePrecision]. *)
Definition computePrecision (tp fp : Z) : float :=
  if UInt.add tp fp =? 0 then Float32.one
  else Float32.div (Float32.of_Z tp) (Float32.of_Z (UInt.add tp fp)).

(** [Evaluator::computeRecall]. *)
Definition computeRecall (tp fn : Z) : float :=
  if UInt.add tp fn =? 0 then Float32.one
  else Float32.div (Float32.of_Z tp) (Float32.of_Z (UInt.add tp fn)).

(** [Evaluator::computeIntersectionOverUnion]. *)
Definition computeIntersectionOverUnion (tp fp fn : Z) : float :=
  if UInt.add (UInt.add tp fp) fn =? 0 then Float32.one
  else Float32.div (Float32.of_Z tp)
         (Float32.of_Z (UInt.add (UInt.add tp fp) fn)).

(** ** Output streams, files and the log

    What is sent to a stream with [<<] is kept as a sequence of tokens, one
    per insertion, so that the text of a file is fixed up to the formatting
    of numbers by the stream. *)

Inductive token :=
| TStr (s : string)
| TFloat (f : float)
| TNum (n : Z)
| TEndl.

Inductive severity := INFO | ERROR.

Record FileSystem := mkFileSystem {
  dirs : gset string;
  files : gmap string (list token)
}.

Record World := mkWorld {
  fs : FileSystem;
  log : list (severity * list token)
}.

(** *** Path resolution

    The keys of [dirs] and [files] are the paths as they were spelled when
    the entry was made. A path names an entry through its location: the
    stack of names, innermost first, that remains when the path is walked
    from the root (absolute paths, marked by ["/"] at the bottom of the
    stack) or from the working directory (relative paths). There are no
    symbolic links, the working directory does not change, and no absolute
    path of the model leads into it. *)

Definition is_slash (c : ascii) : bool := Ascii.eqb c "/".

(** One component of a path: empty components and ["."] stay, [".."]
    goes to the parent, a name goes down. *)
Definition enter (stack : list string) (name : string) : list string :=
  if String.eqb name "" || String.eqb name "." then stack
  else if String.eqb name ".." then
    match stack with
    | [] => [".."%string]
    | top :: rest =>
        if String.eqb top "/" then stack
        else if String.eqb top ".." then ".."%string :: stack
        else rest
    end
  else name :: stack.

(** Reading the characters of a path: the stack so far and the component
    being read. *)
Fixpoint feed (stack : list string) (cur s : string) : list string * string :=
  match s with
  | EmptyString => (stack, cur)
  | String c s' =>
      if is_slash c then feed (enter stack cur) "" s'
      else feed stack (cur ++ String c "") s'
  end.

Definition root_of (p : string) : list string :=
  match p with
  | String c _ => if is_slash c then ["/"%string] else []
  | EmptyString => []
  end.

(** The location that a path names, by its spelling alone. *)
Definition locate (p : string) : list string :=
  enter (feed (root_of p) "" p).1 (feed (root_of p) "" p).2.

Definition dir_locations (f : FileSystem) : list (list string) :=
  map locate (elements (dirs f)).

Definition file_locations (f : FileSystem) : list (list string) :=
  map locate (elements (dom (files f))).

(** [loc] lies strictly above [entry]. *)
Definition above (loc entry : list string) : bool :=
  bool_decide (loc `suffix_of` entry) && negb (bool_decide (loc = entry)).

(** The location is a directory: the root, the working directory or one
    above it, a directory that was made, or one that holds an entry. *)
Definition is_dir (f : FileSystem) (loc : list string) : bool :=
  forallb (String.eqb "..") loc
  || bool_decide (loc = ["/"%string])
  || bool_decide (loc ∈ dir_locations f)
  || existsb (above loc) (dir_locations f ++ file_locations f).

(** The location is a regular file. *)
Definition is_file (f : FileSystem) (loc : list string) : bool :=
  bool_decide (loc ∈ file_locations f) && negb (is_dir f loc).

(** Walking a path in the file system: a component is looked up in a
    directory only, so the walk stops at a location that is not one. *)
Fixpoint resolve_from (f : FileSystem) (stack : list string) (cur s : string)
  : option (list string) :=
  match s with
  | EmptyString => if is_dir f stack then Some (enter stack cur) else None
  | String c s' =>
      if is_slash c
      then (if is_dir f stack then resolve_from f (enter stack cur) "" s'
            else None)
      else resolve_from f stack (cur ++ String c "") s'
  end.

Definition resolve (f : FileSystem) (p : string) : option (list string) :=
  resolve_from f (root_of p) "" p.

(** [std::filesystem::exists]: the path can be walked and ends at an
    entry. The empty path names nothing. *)
Definition fs_exists (p : string) (f : FileSystem) : bool :=
  negb (String.eqb p "")
  && match resolve f p with
     | Some loc => is_dir f loc || bool_decide (loc ∈ file_locations f)
     | None => false
     end.

(** The path itself and every proper prefix of it that ends before a
    separator. *)
Fixpoint ancestors_from (acc s : string) : list string :=
  match s with
  | EmptyString => [acc]
  | String c s' =>
      if Ascii.eqb c "/"
      then (if String.eqb acc "" then [] else [acc])
             ++ ancestors_from (acc ++ "/") s'
      else ancestors_from (acc ++ String c "") s'
  end.

(** [create_directories] cannot make the path: it is empty, or one of its
    elements is a regular file. *)
Definition blocked (p : string) (f : FileSystem) : bool :=
  String.eqb p ""
  || existsb (fun a => is_file f (locate a)) (ancestors_from "" p).

(** [std::filesystem::create_directories]: the directory and its missing
    parents; nothing changes when all of them are there. It throws
    [filesystem_error], here [None], when the path cannot be made. *)
Definition create_directories (p : string) (f : FileSystem)
  : option FileSystem :=
  if blocked p f then None
  else Some (mkFileSystem (dirs f ∪ list_to_set (ancestors_from "" p))
               (files f)).

(** A stream opened with [std::ios::trunc], written and closed. *)
Definition write_trunc (p : string) (content : list token) (f : FileSystem)
  : FileSystem :=
  mkFileSystem (dirs f) (<[p := content]> (files f)).

(** A stream opened with [std::ios::app], written and closed. *)
Definition write_app (p : string) (content : list token) (f : FileSystem)
  : FileSystem :=
  mkFileSystem (dirs f) (<[p := default [] (files f !! p) ++ content]> (files f)).

Definition LOG (sev : severity) (msg : list token) (w : World) : World :=
  mkWorld (fs w) (log w ++ [(sev, msg)]).

Definition with_fs (g : FileSystem -> FileSystem) (w : World) : World :=
  mkWorld (g (fs w)) (log w).

(** ** Local time and its formatting *)

Record tm := mkTm {
  tm_sec : Z;
  tm_min : Z;
  tm_hour : Z;
  tm_mday : Z;
  tm_mon : Z;   (* months since January *)
  tm_year : Z   (* years since 1900 *)
}.

Definition digit (n : Z) : ascii := ascii_of_nat (48 + Z.to_nat (n mod 10)).

Definition two_digits (n : Z) : string :=
  String (digit (n / 10)) (String (digit n) "").

Fixpoint decimal_from (fuel : nat) (n : Z) (acc : string) : string :=
  match fuel with
  | O => acc
  | S fuel' =>
      let acc' := String (digit n) acc in
      if n / 10 =? 0 then acc' else decimal_from fuel' (n / 10) acc'
  end.

(** A non-negative number in decimal, without padding. *)
Definition decimal (n : Z) : string := decimal_from (Z.to_nat n + 1) n "".

(** [std::put_time(&tm, "%Y_%m_%d-%H_%M_%S")]. *)
Definition put_time (t : tm) : string :=
  (decimal (tm_year t + 1900) ++ "_" ++ two_digits (tm_mon t + 1) ++ "_"
   ++ two_digits (tm_mday t) ++ "-" ++ two_digits (tm_hour t) ++ "_"
   ++ two_digits (tm_min t) ++ "_" ++ two_digits (tm_sec t))%string.

(** ** The evaluator *)

Definition ranges_file_name_ : string := "ranges.csv".
Definition scores_file_name_ : string := "scores.csv".
Definition timings_file_name_ : string := "timings.txt".

(** The members of [Evaluator]. They are declared in the header; the
    counter of evaluated frames is kept as an integer without bound. *)
Record Evaluator := mkEvaluator {
  config_ : Config;
  output_directory_ : string;
  gt_frame_counter_ : Z;
  evaluated_levels_ : list string;
  ranges_ : list (list float)
}.

Definition path_in (dir name : string) : string := (dir ++ "/" ++ name)%string.

(** The header of the scores file: the seven columns of a level. *)
Definition header_of_level (level : string) : list token :=
  [TStr (level ++ "_IoU,"); TStr (level ++ "_Precision,");
   TStr (level ++ "_Recall,"); TStr (level ++ "_TP,"); TStr (level ++ "_TN,");
   TStr (level ++ "_FP,"); TStr (level ++ "_FN,")]%string.

(** [Evaluator::setupFiles], at local time [now]. Nothing after
    [create_directories] runs when it throws. *)
Definition setupFiles (now : tm) (ev : Evaluator) (w : World)
  : option (Evaluator * World) :=
  let cfg := config_ ev in
  let dir :=
    if fs_exists (output_directory cfg) (fs w)
    then (output_directory cfg ++ "/" ++ put_time now)%string
    else output_directory cfg in
  match create_directories dir (fs w) with
  | None => None
  | Some made =>
      let w := mkWorld made (log w) in
      let w := LOG INFO [TStr "Writing evaluation to '"; TStr dir; TStr "."] w in
      let levels :=
        evaluated_levels_ ev
        ++ (if evaluate_point_level cfg then ["point"%string] else [])
        ++ (if evaluate_cluster_level cfg then ["cluster"%string] else [])
        ++ (if evaluate_object_level cfg then ["object"%string] else []) in
      let header :=
        [TStr "timestamp,"] ++ flat_map header_of_level levels
        ++ [TStr "EvaluatedPoints,TotalPoints"; TEndl] in
      let w := with_fs (write_trunc (path_in dir scores_file_name_) header) w in
      let ranges :=
        if evaluate_ranges cfg then replicate 4 [] else ranges_ ev in
      Some (mkEvaluator cfg dir (gt_frame_counter_ ev) levels ranges, w)
  end.

(** The evaluator as the constructor leaves it before it calls
    [setupFiles]. *)
Definition initial_evaluator (cfg : Config) : Evaluator :=
  mkEvaluator cfg "" 0 [] [].

(** [Evaluator::Evaluator], for a configuration that passed [checkValid].
    [None] when the set-up throws: no evaluator is built. *)
Definition Evaluator_new (now : tm) (cfg : Config) (w : World)
  : option (Evaluator * World) :=
  setupFiles now (initial_evaluator cfg) w.

(** [Evaluator::writeTimingsToFile]; [report] is what
    [voxblox::timing::Timing::Print()] returns at the call. *)
Definition writeTimingsToFile (ev : Evaluator) (report : string) (w : World)
  : World :=
  with_fs (write_trunc (path_in (output_directory_ ev) timings_file_name_)
             [TStr report; TEndl]) w.

(** The test of the range window in [Evaluator::filterEvaluatedPoints]. *)
Definition within_range (cfg : Config) (point : PointInfo) : bool :=
  Float32.geb (distance_to_sensor point) (min_range cfg)
  && Float32.leb (distance_to_sensor point) (max_range cfg).

Definition set_ready_for_evaluation (b : bool) (point : PointInfo) : PointInfo :=
  mkPointInfo (distance_to_sensor point) b (ground_truth_dynamic point)
    (ever_free_level_dynamic point) (cluster_level_dynamic point)
    (object_level_dynamic point).

(** The loop of [Evaluator::filterEvaluatedPoints]: the counter so far, the
    points still to visit; returns the final counter and the points as the
    loop leaves them. *)
Fixpoint filter_loop (cfg : Config) (number_of_points : Z)
    (pts : list PointInfo) : Z * list PointInfo :=
  match pts with
  | [] => (number_of_points, [])
  | point :: rest =>
      if within_range cfg point
      then
        let '(n, rest') := filter_loop cfg (Int.incr number_of_points) rest in
        (n, set_ready_for_evaluation true point :: rest')
      else
        let '(n, rest') := filter_loop cfg number_of_points rest in
        (n, point :: rest')
  end.

(** [Evaluator::filterEvaluatedPoints]: the returned count and the cloud
    after the call. *)
Definition filterEvaluatedPoints (cfg : Config) (cloud_info : CloudInfo)
  : Z * CloudInfo :=
  let '(n, pts) := filter_loop cfg 0 (points cloud_info) in
  (n, mkCloudInfo (timestamp cloud_info) pts).

(** The four counters of a confusion matrix. *)
Record Counters := mkCounters { c_tp : Z; c_fp : Z; c_tn : Z; c_fn : Z }.

(** One iteration of the counting loop of [evaluateCloudAtLevel]. *)
Definition count_point (check_level : PointInfo -> bool) (c : Counters)
    (point : PointInfo) : Counters :=
  if negb (ready_for_evaluation point) then c
  else
    let is_dynamic := check_level point in
    if is_dynamic && ground_truth_dynamic point
    then mkCounters (UInt.incr (c_tp c)) (c_fp c) (c_tn c) (c_fn c)
    else if is_dynamic && negb (ground_truth_dynamic point)
    then mkCounters (c_tp c) (UInt.incr (c_fp c)) (c_tn c) (c_fn c)
    else if negb is_dynamic && negb (ground_truth_dynamic point)
    then mkCounters (c_tp c) (c_fp c) (UInt.incr (c_tn c)) (c_fn c)
    else if negb is_dynamic && ground_truth_dynamic point
    then mkCounters (c_tp c) (c_fp c) (c_tn c) (UInt.incr (c_fn c))
    else c.

Definition count_cloud (check_level : PointInfo -> bool)
    (cloud_info : CloudInfo) : Counters :=
  fold_left (count_point check_level) (points cloud_info) (mkCounters 0 0 0 0).

(** The selection of the prediction by the name of the level; [None] for a
    name that is none of the three. *)
Definition check_level_of (level : string) : option (PointInfo -> bool) :=
  if String.eqb level "point" then Some ever_free_level_dynamic
  else if String.eqb level "cluster" then Some cluster_level_dynamic
  else if String.eqb level "object" then Some object_level_dynamic
  else None.

(** The columns written for a confusion matrix. *)
Definition metrics_columns (c : Counters) : list token :=
  [TStr ","; TFloat (computeIntersectionOverUnion (c_tp c) (c_fp c) (c_fn c));
   TStr ","; TFloat (computePrecision (c_tp c) (c_fp c));
   TStr ","; TFloat (computeRecall (c_tp c) (c_fn c));
   TStr ","; TNum (c_tp c); TStr ","; TNum (c_tn c);
   TStr ","; TNum (c_fp c); TStr ","; TNum (c_fn c)].

(** [Evaluator::evaluateCloudAtLevel]: what has been sent to [output_file]
    so far and the log, before and after. *)
Definition evaluateCloudAtLevel (cloud_info : CloudInfo) (level : string)
    (output_file : list token) (lg : list (severity * list token))
  : list token * list (severity * list token) :=
  match check_level_of level with
  | None =>
      (output_file,
       lg ++ [(ERROR, [TStr "Unknown evaluation level '"; TStr level; TStr "'!"])])
  | Some check_level =>
      (output_file ++ metrics_columns (count_cloud check_level cloud_info), lg)
  end.

(** [ranges_[i].push_back(d)]. The index is in range whenever the source
    reaches this: [evaluateRanges] runs only under [evaluate_ranges], for
    which [setupFiles] has made the four buckets. *)
Definition push_range (i : nat) (d : float) (ranges : list (list float))
  : list (list float) :=
  alter (fun bucket => bucket ++ [d]) i ranges.

(** One iteration of the first loop of [evaluateRanges]. *)
Definition collect_point (ranges : list (list float)) (point : PointInfo)
  : list (list float) :=
  if negb (ready_for_evaluation point) then ranges
  else
    let is_dynamic := cluster_level_dynamic point in
    if is_dynamic && ground_truth_dynamic point
    then push_range 0 (distance_to_sensor point) ranges
    else if is_dynamic && negb (ground_truth_dynamic point)
    then push_range 1 (distance_to_sensor point) ranges
    else if negb is_dynamic && negb (ground_truth_dynamic point)
    then push_range 2 (distance_to_sensor point) ranges
    else if negb is_dynamic && ground_truth_dynamic point
    then push_range 3 (distance_to_sensor point) ranges
    else ranges.

Definition collect_ranges (ranges : list (list float)) (cloud_info : CloudInfo)
  : list (list float) :=
  fold_left collect_point (points cloud_info) ranges.

(** One line of the ranges file after its label. *)
Definition range_values (bucket : list float) : list token :=
  flat_map (fun d => [TStr ","; TFloat d]) bucket.

(** [ranges_[i]], read. *)
Definition bucket_at (ranges : list (list float)) (i : nat) : list float :=
  default [] (ranges !! i).

(** What [evaluateRanges] sends to the ranges file. *)
Definition ranges_file_content (ranges : list (list float)) : list token :=
  [TStr "TP"] ++ range_values (bucket_at ranges 0)
  ++ [TStr (String "010" "FP")] ++ range_values (bucket_at ranges 1)
  ++ [TStr (String "010" "TN")] ++ range_values (bucket_at ranges 1)
  ++ [TStr (String "010" "FN")] ++ range_values (bucket_at ranges 1)
  ++ [TStr (String "010" "")].

(** [Evaluator::evaluateRanges]. *)
Definition evaluateRanges (ev : Evaluator) (cloud_info : CloudInfo) (w : World)
  : Evaluator * World :=
  let ranges := collect_ranges (ranges_ ev) cloud_info in
  (mkEvaluator (config_ ev) (output_directory_ ev) (gt_frame_counter_ ev)
     (evaluated_levels_ ev) ranges,
   with_fs (write_trunc (path_in (output_directory_ ev) ranges_file_name_)
              (ranges_file_content ranges)) w).

(** The loop over the evaluated levels in [writeScoresToFile]. *)
Definition evaluate_levels (cloud_info : CloudInfo) (levels : list string)
    (output_file : list token) (lg : list (severity * list token))
  : list token * list (severity * list token) :=
  fold_left (fun '(out, lg) level => evaluateCloudAtLevel cloud_info level out lg)
    levels (output_file, lg).

(** What [writeScoresToFile] appends to the scores file for a cloud, with
    the cloud after the range filter and the log. *)
Definition scores_row (ev : Evaluator) (cloud_info : CloudInfo)
    (lg : list (severity * list token))
  : list token * CloudInfo * list (severity * list token) :=
  let out := [TNum (timestamp cloud_info)] in
  let '(evaluated_points, cloud_info) :=
    filterEvaluatedPoints (config_ ev) cloud_info in
  let '(out, lg) :=
    evaluate_levels cloud_info (evaluated_levels_ ev) out lg in
  (out ++ [TStr ","; TNum evaluated_points; TStr ",";
           TNum (Z.of_nat (length (points cloud_info))); TEndl],
   cloud_info, lg).

(** [Evaluator::writeScoresToFile]. *)
Definition writeScoresToFile (ev : Evaluator) (cloud_info : CloudInfo)
    (w : World) : Evaluator * CloudInfo * World :=
  let '(row, cloud_info, lg) := scores_row ev cloud_info (log w) in
  let w :=
    mkWorld (write_app (path_in (output_directory_ ev) scores_file_name_) row
               (fs w)) lg in
  if evaluate_ranges (config_ ev)
  then let '(ev, w) := evaluateRanges ev cloud_info w in (ev, cloud_info, w)
  else (ev, cloud_info, w).

(** The ground truth handler is an external collaborator: its state and its
    one operation, which labels the cloud in place and tells whether ground
    truth was available, are parameters of the evaluation of a frame. *)
Section EvaluateFrame.
Variable GroundTruthHandler : Type.
Variable labelCloudInfoIfAvailable :
  GroundTruthHandler -> CloudInfo -> bool * CloudInfo * GroundTruthHandler.

(** [Evaluator::evaluateFrame]; [report] is the text of the timing
    statistics at the call. *)
Definition evaluateFrame (report : string)
    (st : Evaluator * GroundTruthHandler * World) (cloud_info : CloudInfo)
  : Evaluator * GroundTruthHandler * World * CloudInfo :=
  let '(ev, ground_truth_handler, w) := st in
  let w := writeTimingsToFile ev report w in
  let '(available, cloud_info, ground_truth_handler) :=
    labelCloudInfoIfAvailable ground_truth_handler cloud_info in
  if available then
    let '(ev, cloud_info, w) := writeScoresToFile ev cloud_info w in
    let ev :=
      mkEvaluator (config_ ev) (output_directory_ ev)
        (gt_frame_counter_ ev + 1) (evaluated_levels_ ev) (ranges_ ev) in
    let w :=
      LOG INFO [TStr "Evaluated cloud "; TNum (gt_frame_counter_ ev);
                TStr " with timestamp "; TNum (timestamp cloud_info);
                TStr "."] w in
    (ev, ground_truth_handler, w, cloud_info)
  else (ev, ground_truth_handler, w, cloud_info).

(** A run: the frames in order, each with the timing report of its call. *)
Fixpoint evaluateFrames (st : Evaluator * GroundTruthHandler * World)
    (frames : list (string * CloudInfo))
  : Evaluator * GroundTruthHandler * World :=
  match frames with
  | [] => st
  | (report, cloud_info) :: rest =>
      let '(st', _) := evaluateFrame report st cloud_info in
      evaluateFrames st' rest
  end.
End EvaluateFrame.


(** * Notions used in the statements *)

(** Eligibility of a point after the filter: it was flagged already, or it
    lies in the window. *)
Definition eligible_after (cfg : Config) (point : PointInfo) : bool :=
  ready_for_evaluation point || within_range cfg point.

Definition count_if {A} (f : A -> bool) (l : list A) : Z :=
  Z.of_nat (length (List.filter f l)).

(** A window from 0 to 10 and a cloud of one point at distance 100 that
    arrives with its flag set. *)
Definition window_0_10 : Config :=
  mkConfig "out" (Float32.of_Z 0) (Float32.of_Z 10) true true true true.

Definition far_flagged_point : PointInfo :=
  mkPointInfo (Float32.of_Z 100) true false false false false.

Definition far_flagged_cloud : CloudInfo := mkCloudInfo 7 [far_flagged_point].

(** ** Binary32 values in the statements *)

(** The canonical form of a positive binary32 value with mantissa [m]
    between [2^23] and [2^24]: a mantissa that reached [2^24] is renormalised
    to [2^23] with the next exponent. *)
Definition norm_finite (sx : bool) (m e : Z) : spec_float :=
  if m =? 2 ^ 24 then S754_finite sx (Z.to_pos (2 ^ 23)) (e + 1)
  else S754_finite sx (Z.to_pos m) e.

(** Rounding to nearest even in terms of the remainder [r] modulo [2^k]:
    whether the mantissa [q] is incremented. *)
Definition rounds_up (q r k : Z) : bool :=
  (2 ^ k <? 2 * r) || ((2 * r =? 2 ^ k) && Z.odd q).

(** Mantissa and exponent of the binary32 value nearest to a positive
    integer [n]. *)
Definition nearest_parts (n : Z) : Z * Z :=
  let d := Zdigits2 n in
  if d <=? 24 then (n * 2 ^ (24 - d), d - 24)
  else
    let k := d - 24 in
    let q := n / 2 ^ k in
    let r := n mod 2 ^ k in
    let m := if rounds_up q r k then q + 1 else q in
    if m =? 2 ^ 24 then (2 ^ 23, k + 1) else (m, k).

(** Order of positive normalised values by exponent, then mantissa. *)
Definition parts_le (x y : Z * Z) : Prop :=
  snd x < snd y \/ (snd x = snd y /\ fst x <= fst y).

(** A value between zero and one, both included. *)
Definition in_unit_interval (x : float) : bool :=
  Float32.leb Float32.zero x && Float32.leb x Float32.one.

(** The four outcomes of a prediction against the ground truth. *)
Inductive Outcome := TruePositive | FalsePositive | TrueNegative | FalseNegative.

Definition outcome_of (predicted_dynamic gt_dynamic : bool) : Outcome :=
  match predicted_dynamic, gt_dynamic with
  | true, true => TruePositive
  | true, false => FalsePositive
  | false, false => TrueNegative
  | false, true => FalseNegative
  end.

Definition Outcome_eqb (a b : Outcome) : bool :=
  match a, b with
  | TruePositive, TruePositive | FalsePositive, FalsePositive
  | TrueNegative, TrueNegative | FalseNegative, FalseNegative => true
  | _, _ => false
  end.

(** The point is flagged for evaluation and its outcome under the
    prediction [check] is [o]. *)
Definition has_outcome (check : PointInfo -> bool) (o : Outcome)
    (point : PointInfo) : bool :=
  ready_for_evaluation point
  && Outcome_eqb (outcome_of (check point) (ground_truth_dynamic point)) o.

(** The place of the bucket of an outcome in [ranges_]. *)
Definition bucket_index (o : Outcome) : nat :=
  match o with
  | TruePositive => 0
  | FalsePositive => 1
  | TrueNegative => 2
  | FalseNegative => 3
  end.

Definition counter_of (o : Outcome) (c : Counters) : Z :=
  match o with
  | TruePositive => c_tp c
  | FalsePositive => c_fp c
  | TrueNegative => c_tn c
  | FalseNegative => c_fn c
  end.

Definition total (c : Counters) : Z := c_tp c + c_fp c + c_tn c + c_fn c.

(** No point arrives flagged unless it lies in the window. *)
Definition flags_within (cfg : Config) (cloud_info : CloudInfo) : Prop :=
  Forall (fun p => ready_for_evaluation p = true -> within_range cfg p = true)
    (points cloud_info).

(** Three points in the window, ground truth dynamic, dynamic, static and
    cluster-level prediction dynamic, static, static. *)
Definition three_points_cloud : CloudInfo :=
  mkCloudInfo 42
    [mkPointInfo (Float32.of_Z 1) false true false true false;
     mkPointInfo (Float32.of_Z 2) false true false false false;
     mkPointInfo (Float32.of_Z 3) false false false false false].

(** The point is eligible after the filter and has outcome [o] under the
    prediction [check]. *)
Definition eligible_with_outcome (cfg : Config) (check : PointInfo -> bool)
    (o : Outcome) (point : PointInfo) : bool :=
  eligible_after cfg point
  && Outcome_eqb (outcome_of (check point) (ground_truth_dynamic point)) o.

(** Four empty buckets, as [setupFiles] leaves them. *)
Definition empty_ranges : list (list float) := replicate 4 [].

(** The columns that a level contributes to a row, and the report of a
    level that is not known. *)
Definition columns_of_level (cloud_info : CloudInfo) (level : string)
  : list token :=
  match check_level_of level with
  | Some check => metrics_columns (count_cloud check cloud_info)
  | None => []
  end.

Definition unknown_level_report (level : string) : severity * list token :=
  (ERROR, [TStr "Unknown evaluation level '"; TStr level; TStr "'!"]).

Definition reports_of_level (level : string) : list (severity * list token) :=
  match check_level_of level with
  | Some _ => []
  | None => [unknown_level_report level]
  end.

(** An evaluator with four empty buckets that writes below [out], and a
    cloud of one flagged point at distance 5 that is static at cluster level
    and static in the ground truth. *)
Definition ranges_evaluator : Evaluator :=
  mkEvaluator window_0_10 "out" 0 ["cluster"%string] empty_ranges.

Definition true_negative_cloud : CloudInfo :=
  mkCloudInfo 9 [mkPointInfo (Float32.of_Z 5) true false false false false].

Definition empty_world : World := mkWorld (mkFileSystem ∅ ∅) [].

(** The text of a file; a file that is not there has none. *)
Definition file_content (w : World) (p : string) : list token :=
  default [] (files (fs w) !! p).

Definition scores_path (ev : Evaluator) : string :=
  path_in (output_directory_ ev) scores_file_name_.
Definition ranges_path (ev : Evaluator) : string :=
  path_in (output_directory_ ev) ranges_file_name_.
Definition timings_path (ev : Evaluator) : string :=
  path_in (output_directory_ ev) timings_file_name_.

(** Line ends in what was sent to a stream: one for [std::endl], one for
    each newline character of a string; the decimal text of a number has
    none. *)
Fixpoint newlines (s : string) : Z :=
  match s with
  | EmptyString => 0
  | String c s' => (if Ascii.eqb c "010" then 1 else 0) + newlines s'
  end.

Definition line_ends_of (t : token) : Z :=
  match t with
  | TEndl => 1
  | TStr s => newlines s
  | TFloat _ | TNum _ => 0
  end.

Definition line_ends (l : list token) : Z :=
  fold_right (fun t n => line_ends_of t + n) 0 l.

Section Frames.
Variable GroundTruthHandler : Type.
Variable labelCloudInfoIfAvailable :
  GroundTruthHandler -> CloudInfo -> bool * CloudInfo * GroundTruthHandler.

(** The number of frames of a run for which the handler has ground
    truth. *)
Fixpoint labelled_frames (h : GroundTruthHandler)
    (frames : list (string * CloudInfo)) : Z :=
  match frames with
  | [] => 0
  | (_, cloud_info) :: rest =>
      let '(available, _, h') := labelCloudInfoIfAvailable h cloud_info in
      (if available then 1 else 0) + labelled_frames h' rest
  end.
End Frames.

(** A handler without state that has ground truth for the frames with an
    even timestamp and marks their points as dynamic. *)
Definition even_handler (h : unit) (cloud_info : CloudInfo)
  : bool * CloudInfo * unit :=
  if Z.even (timestamp cloud_info)
  then (true,
        mkCloudInfo (timestamp cloud_info)
          (map (fun p =>
                  mkPointInfo (distance_to_sensor p) (ready_for_evaluation p)
                    true (ever_free_level_dynamic p) (cluster_level_dynamic p)
                    (object_level_dynamic p))
             (points cloud_info)),
        h)
  else (false, cloud_info, h).


(** A run of three frames with time stamps 2, 3 and 4, each a copy of
    [three_points_cloud]. *)
Definition three_frames : list (string * CloudInfo) :=
  [("t0"%string, mkCloudInfo 2 (points three_points_cloud));
   ("t1"%string, mkCloudInfo 3 (points three_points_cloud));
   ("t2"%string, mkCloudInfo 4 (points three_points_cloud))].

Definition noon : tm := mkTm 0 0 12 30 9 126.

(** One minute later. *)
Definition a_minute_after_noon : tm := mkTm 0 1 12 30 9 126.




(** A broken-down local time in a year of four digits. *)
Definition valid_tm (t : tm) : Prop :=
  0 <= tm_sec t <= 60 /\ 0 <= tm_min t <= 59 /\ 0 <= tm_hour t <= 23
  /\ 1 <= tm_mday t <= 31 /\ 0 <= tm_mon t <= 11
  /\ 1000 <= tm_year t + 1900 <= 9999.

Fixpoint has_slash (s : string) : bool :=
  match s with
  | EmptyString => false
  | String c s' => Ascii.eqb c "/" || has_slash s'
  end.



(** A world in which [out] is a regular file. *)
Definition world_with_regular_file : World :=
  mkWorld (mkFileSystem ∅ {[ "out"%string := [TStr "notes"] ]}) [].

(** A world in which [out] exists and holds the scores of a run that was
    started at [noon]. *)
Definition world_with_older_run : World :=
  mkWorld
    (mkFileSystem {[ "out"%string; "out/2026_10_30-12_00_00"%string ]}
       {[ "out/2026_10_30-12_00_00/scores.csv"%string := [TStr "older run"] ]})
    [].

(** * Further notions *)

Definition is_nan (x : float) : bool :=
  match x with
  | S754_nan => true
  | _ => false
  end.

(** The window test involves a NaN for this point: its distance or one of
    the two bounds. *)
Definition nan_involved (cfg : Config) (point : PointInfo) : bool :=
  is_nan (distance_to_sensor point) || is_nan (min_range cfg)
  || is_nan (max_range cfg).

(** The cloud without the points that are not flagged for evaluation. *)
Definition flagged_only (cloud_info : CloudInfo) : CloudInfo :=
  mkCloudInfo (timestamp cloud_info)
    (List.filter ready_for_evaluation (points cloud_info)).

(** The columns of a matrix without eligible points: the three metrics are
    1 and the four counters 0. *)
Definition vacuous_columns : list token :=
  [TStr ","; TFloat Float32.one; TStr ","; TFloat Float32.one;
   TStr ","; TFloat Float32.one; TStr ","; TNum 0; TStr ","; TNum 0;
   TStr ","; TNum 0; TStr ","; TNum 0].

(** Separators in what was sent to a stream: the commas of the strings;
    the decimal text of a number has none. *)
Fixpoint commas (s : string) : Z :=
  match s with
  | EmptyString => 0
  | String c s' => (if Ascii.eqb c "," then 1 else 0) + commas s'
  end.

Definition separators_of (t : token) : Z :=
  match t with
  | TStr s => commas s
  | TFloat _ | TNum _ | TEndl => 0
  end.

Definition separators (l : list token) : Z :=
  fold_right (fun t n => separators_of t + n) 0 l.

(** The separators of a line of the scores file for [n] levels. *)
Definition separators_per_line (n : nat) : Z := 7 * Z.of_nat n + 2.

Definition is_info (entry : severity * list token) : bool :=
  match fst entry with
  | INFO => true
  | ERROR => false
  end.

(** What [evaluateFrame] logs after a frame with ground truth. *)
Definition evaluated_cloud_report (counter stamp : Z) : severity * list token :=
  (INFO, [TStr "Evaluated cloud "; TNum counter; TStr " with timestamp ";
          TNum stamp; TStr "."]).

(** The name is one of the three levels. *)
Definition known_level (level : string) : bool :=
  match check_level_of level with
  | Some _ => true
  | None => false
  end.

(** [x > y]; false as soon as one side is a NaN. *)
Definition float_gtb (x y : float) : bool :=
  match SFcompare x y with
  | Some Gt => true
  | _ => false
  end.

(** [Evaluator::Config::checkParams]: the four checks it hands to the
    configuration library, which accepts the configuration when all of them
    hold. The check of the nested ground truth configuration lies outside
    these sources and is a parameter. (The library's check of
    [min_range >= 0] and its reading as [not (min_range < 0)] differ for a
    NaN only, which the check of [max_range > min_range] refuses in both
    readings.) *)
Definition checkParams (ground_truth_config_valid : bool) (cfg : Config)
  : bool :=
  negb (String.eqb (output_directory cfg) "")
  && Float32.geb (min_range cfg) Float32.zero
  && float_gtb (max_range cfg) (min_range cfg)
  && ground_truth_config_valid.

(** The three files of an evaluator. *)
Definition own_files (ev : Evaluator) : list string :=
  [scores_path ev; ranges_path ev; timings_path ev].

(** The integer nearest to the quotient of [n] by [d], ties to even. *)
Definition round_ratio (n d : Z) : Z :=
  let q := n / d in
  let r := n mod d in
  if (d <? 2 * r) || ((2 * r =? d) && Z.odd q) then q + 1 else q.

(** * Properties *)

(** ** Binary32 arithmetic *)

Lemma digits2_pos_bounds p :
  2 ^ (Zpos (digits2_pos p) - 1) <= Zpos p < 2 ^ Zpos (digits2_pos p).
Proof.
  induction p as [p IH|p IH|]; cbn [digits2_pos].
  - rewrite Pos2Z.inj_succ.
    replace (Z.succ (Z.pos (digits2_pos p)) - 1) with (Z.pos (digits2_pos p)) by lia.
    rewrite Z.pow_succ_r by lia.
    replace (2 ^ Z.pos (digits2_pos p))
      with (2 * 2 ^ (Z.pos (digits2_pos p) - 1)) in *
      by (rewrite <- Z.pow_succ_r by lia; f_equal; lia).
    lia.
  - rewrite Pos2Z.inj_succ.
    replace (Z.succ (Z.pos (digits2_pos p)) - 1) with (Z.pos (digits2_pos p)) by lia.
    rewrite Z.pow_succ_r by lia.
    replace (2 ^ Z.pos (digits2_pos p))
      with (2 * 2 ^ (Z.pos (digits2_pos p) - 1)) in *
      by (rewrite <- Z.pow_succ_r by lia; f_equal; lia).
    lia.
  - simpl. lia.
Qed.

Lemma pow2_le_mono a b : 0 <= a <= b -> 2 ^ a <= 2 ^ b.
Proof. intros H. apply Z.pow_le_mono_r; lia. Qed.

Lemma digits2_pos_unique p d :
  2 ^ (d - 1) <= Zpos p < 2 ^ d -> 0 < d -> Zpos (digits2_pos p) = d.
Proof.
  intros H Hd. pose proof (digits2_pos_bounds p) as B.
  destruct (Z.lt_trichotomy (Zpos (digits2_pos p)) d) as [Hlt | [Heq | Hgt]];
    [exfalso | exact Heq | exfalso].
  - pose proof (pow2_le_mono (Zpos (digits2_pos p)) (d - 1)). lia.
  - pose proof (pow2_le_mono d (Zpos (digits2_pos p) - 1)). lia.
Qed.

Lemma Zdigits2_unique m d :
  2 ^ (d - 1) <= m < 2 ^ d -> 0 < d -> Zdigits2 m = d.
Proof.
  intros H Hd. destruct m as [|p|p].
  - pose proof (Z.pow_pos_nonneg 2 (d - 1)). lia.
  - now apply digits2_pos_unique.
  - pose proof (Z.pow_pos_nonneg 2 (d - 1)). lia.
Qed.

Lemma iter_pos_nat {A} (f : A -> A) p x :
  SpecFloat.iter_pos f p x = Nat.iter (Pos.to_nat p) f x.
Proof.
  revert x. induction p as [p IH|p IH|]; intros x; cbn [SpecFloat.iter_pos].
  - rewrite !IH, Pos2Nat.inj_xI.
    replace (S (2 * Pos.to_nat p)) with (Pos.to_nat p + Pos.to_nat p + 1)%nat by lia.
    rewrite !Nat.iter_add. reflexivity.
  - rewrite !IH, Pos2Nat.inj_xO.
    replace (2 * Pos.to_nat p)%nat with (Pos.to_nat p + Pos.to_nat p)%nat by lia.
    rewrite Nat.iter_add. reflexivity.
  - reflexivity.
Qed.

Lemma shr_1_nonneg m r s :
  0 <= m ->
  shr_1 (Build_shr_record m r s) = Build_shr_record (m / 2) (Z.odd m) (r || s).
Proof.
  intros Hm. destruct m as [|[p|p|]|p]; try lia; cbn [shr_1].
  - reflexivity.
  - f_equal. rewrite Pos2Z.inj_xI.
    apply (Z.div_unique_pos _ _ _ 1); lia.
  - f_equal. rewrite Pos2Z.inj_xO.
    apply (Z.div_unique_pos _ _ _ 0); lia.
  - reflexivity.
Qed.

(** The record after [k] shifts of [m], from an exact location: the
    quotient by [2^k], whether the remainder reaches the half, and whether
    it is neither zero nor the half. *)
Lemma shr_iter_exact m k :
  0 <= m ->
  exists q r,
    m = q * 2 ^ Z.of_nat k + r /\ 0 <= r < 2 ^ Z.of_nat k /\ 0 <= q
    /\ Nat.iter k shr_1 (Build_shr_record m false false)
       = Build_shr_record q (2 ^ Z.of_nat k <=? 2 * r)
           (negb ((r =? 0) || (2 * r =? 2 ^ Z.of_nat k))).
Proof.
  intros Hm. induction k as [|k IH].
  - exists m, 0. simpl. repeat split; try lia.
  - destruct IH as (q & r & Hq & Hr & Hq0 & Hiter).
    rewrite Nat.iter_succ, Hiter, shr_1_nonneg by exact Hq0.
    rewrite Nat2Z.inj_succ, Z.pow_succ_r by lia.
    pose proof (Z.div_mod q 2 ltac:(lia)) as Hdiv.
    pose proof (Z.mod_pos_bound q 2 ltac:(lia)) as Hmod.
    assert (Hodd : Z.odd q = (q mod 2 =? 1)).
    { rewrite Zmod_odd. now destruct (Z.odd q). }
    exists (q / 2), ((q mod 2) * 2 ^ Z.of_nat k + r).
    assert (Hq2 : 0 <= q / 2) by (apply Z.div_pos; lia).
    split; [nia|]. split; [nia|]. split; [exact Hq2|].
    f_equal.
    + rewrite Hodd. destruct (q mod 2 =? 1) eqn:E.
      * apply Z.eqb_eq in E. symmetry. apply Z.leb_le. nia.
      * apply Z.eqb_neq in E. symmetry. apply Z.leb_gt. nia.
    + set (h := 2 ^ Z.of_nat k) in *. set (b := q mod 2) in *.
      assert (Hh : 0 < h) by (apply Z.pow_pos_nonneg; lia).
      assert (Hb : b = 0 \/ b = 1) by lia.
      clearbody b h. clear Hdiv Hodd Hiter Hq.
      destruct Hb as [-> | ->];
      destruct (h <=? 2 * r) eqn:E1, (r =? 0) eqn:E2, (2 * r =? h) eqn:E3,
        (_ * h + r =? 0) eqn:E4, (2 * (_ * h + r) =? 2 * h) eqn:E5;
        try reflexivity; exfalso;
        rewrite ?Z.eqb_eq, ?Z.eqb_neq, ?Z.leb_le, ?Z.leb_gt in *; lia.
Qed.

Lemma shr_iter_m m r s k :
  0 <= m ->
  exists r' s',
    Nat.iter k shr_1 (Build_shr_record m r s)
    = Build_shr_record (m / 2 ^ Z.of_nat k) r' s'.
Proof.
  intros Hm. induction k as [|k IH].
  - exists r, s. simpl. now rewrite Z.div_1_r.
  - destruct IH as (r' & s' & IH).
    rewrite Nat.iter_succ, IH, shr_1_nonneg by (apply Z.div_pos; lia).
    eexists _, _. f_equal.
    rewrite Nat2Z.inj_succ, Z.pow_succ_r, Z.mul_comm by lia.
    rewrite Z.div_div by lia. reflexivity.
Qed.

Lemma round_nearest_even_bounds mx lx :
  mx <= round_nearest_even mx lx <= mx + 1.
Proof.
  destruct lx as [|[ | | ]]; simpl; try lia.
  destruct (Z.even mx); lia.
Qed.

Lemma fexp_normal e : -149 <= e - 24 -> fexp 24 128 e = e - 24.
Proof. intros H. unfold fexp, emin. lia. Qed.

Lemma shr_nat mrs e k :
  0 <= k -> shr mrs e k = (Nat.iter (Z.to_nat k) shr_1 mrs, e + k).
Proof.
  intros Hk. destruct k as [|p|p]; try lia.
  - simpl. now rewrite Z.add_0_r.
  - unfold shr. now rewrite iter_pos_nat.
Qed.

Lemma pow2_split k : 0 <= k -> 2 ^ (24 + k) = 2 ^ k * 2 ^ 24 /\ 2 ^ (23 + k) = 2 ^ k * 2 ^ 23.
Proof.
  intros Hk. rewrite !Z.pow_add_r by lia. lia.
Qed.

Lemma shr_fexp_normal m e loc k :
  0 <= k -> 2 ^ (23 + k) <= m < 2 ^ (24 + k) -> -149 <= e ->
  shr_fexp 24 128 m e loc
  = (Nat.iter (Z.to_nat k) shr_1 (shr_record_of_loc m loc), e + k).
Proof.
  intros Hk Hm He. unfold shr_fexp.
  rewrite (Zdigits2_unique m (24 + k)), fexp_normal by
    (try replace (24 + k - 1) with (23 + k) by lia; lia || exact Hm).
  replace (24 + k + e - 24 - e) with k by lia.
  now apply shr_nat.
Qed.

(** Rounding a mantissa of [24 + k] bits at exponent [e]: [k] bits are
    shifted out, the quotient is rounded with the location of what was
    shifted out, and the result is put in canonical form. *)
Lemma binary_round_aux_normal sx m e loc k :
  0 <= k -> 2 ^ (23 + k) <= m < 2 ^ (24 + k) ->
  -149 <= e -> e + k + 1 <= 104 ->
  let mrs := Nat.iter (Z.to_nat k) shr_1 (shr_record_of_loc m loc) in
  shr_m mrs = m / 2 ^ k
  /\ 2 ^ 23 <= m / 2 ^ k < 2 ^ 24
  /\ binary_round_aux 24 128 sx m e loc
     = norm_finite sx
         (round_nearest_even (shr_m mrs) (loc_of_shr_record mrs)) (e + k).
Proof.
  intros Hk Hm He Hmax mrs.
  destruct (pow2_split k Hk) as [P24 P23].
  assert (Hpk : 0 < 2 ^ k) by (apply Z.pow_pos_nonneg; lia).
  assert (Hm0 : 0 <= m) by lia.
  assert (Hq : 2 ^ 23 <= m / 2 ^ k < 2 ^ 24).
  { split.
    - apply Z.div_le_lower_bound; lia.
    - apply Z.div_lt_upper_bound; lia. }
  assert (Hmrs : shr_m mrs = m / 2 ^ k).
  { unfold mrs.
    assert (Hrec : exists r s, shr_record_of_loc m loc = Build_shr_record m r s)
      by (destruct loc as [|[ | | ]]; simpl; eauto).
    destruct Hrec as (r & s & ->).
    destruct (shr_iter_m m r s (Z.to_nat k) Hm0) as (r' & s' & ->).
    simpl. now rewrite Z2Nat.id by lia. }
  split; [exact Hmrs|]. split; [exact Hq|].
  unfold binary_round_aux.
  rewrite (shr_fexp_normal m e loc k) by assumption. fold mrs.
  pose proof (round_nearest_even_bounds (shr_m mrs) (loc_of_shr_record mrs)) as Hr.
  set (m1 := round_nearest_even (shr_m mrs) (loc_of_shr_record mrs)) in *.
  rewrite Hmrs in Hr. unfold norm_finite.
  destruct (m1 =? 2 ^ 24) eqn:E.
  - apply Z.eqb_eq in E. rewrite E.
    assert (X2 : 2 ^ (23 + 1) <= 2 ^ 24 < 2 ^ (24 + 1))
      by (change (23 + 1) with 24; change (24 + 1) with 25; lia).
    rewrite (shr_fexp_normal (2 ^ 24) (e + k) loc_Exact 1 ltac:(lia) X2 ltac:(lia)).
    change (Z.to_nat 1) with 1%nat. rewrite Nat.iter_succ. cbn [Nat.iter nat_rect].
    change (2 ^ 24) with 16777216. cbn [shr_record_of_loc shr_1 shr_m fst snd].
    replace (e + k + 1 <=? 128 - 24) with true by (symmetry; apply Z.leb_le; lia).
    reflexivity.
  - apply Z.eqb_neq in E.
    assert (Hm1 : 2 ^ 23 <= m1 < 2 ^ 24) by lia.
    rewrite (shr_fexp_normal m1 (e + k) loc_Exact 0 ltac:(lia) Hm1 ltac:(lia)).
    change (Z.to_nat 0) with 0%nat.
    cbn [Nat.iter nat_rect shr_record_of_loc shr_m].
    destruct m1 as [|p|p]; try lia.
    replace (e + k + 0 <=? 128 - 24) with true by (symmetry; apply Z.leb_le; lia).
    rewrite Pos2Z.id. f_equal. lia.
Qed.

Lemma Zdigits2_bounds n :
  0 < n -> 0 < Zdigits2 n /\ 2 ^ (Zdigits2 n - 1) <= n < 2 ^ Zdigits2 n.
Proof.
  intros Hn. destruct n as [|p|p]; try lia.
  split; [simpl; lia | apply digits2_pos_bounds].
Qed.

Lemma Zdigits2_uint n : 0 < n < 2 ^ 32 -> 1 <= Zdigits2 n <= 32.
Proof.
  intros Hn. destruct (Zdigits2_bounds n) as [Hd Hb]; [lia|].
  split; [lia|].
  destruct (Z_le_gt_dec (Zdigits2 n) 32) as [H|H]; [exact H|exfalso].
  pose proof (pow2_le_mono 32 (Zdigits2 n - 1)). lia.
Qed.

Lemma Pos_iter_xO p k : Zpos (Pos.iter xO p k) = Zpos p * 2 ^ Zpos k.
Proof.
  rewrite <- Z.shiftl_mul_pow2 by lia. unfold Z.shiftl.
  now rewrite (Pos.iter_swap_gen _ _ Zpos xO (Z.mul 2)).
Qed.

Lemma round_nearest_even_rounds_up q r k :
  0 <= r < 2 ^ k ->
  round_nearest_even q
    (loc_of_shr_record
       (Build_shr_record q (2 ^ k <=? 2 * r)
          (negb ((r =? 0) || (2 * r =? 2 ^ k)))))
  = if rounds_up q r k then q + 1 else q.
Proof.
  intros Hr. unfold rounds_up.
  destruct (2 ^ k <=? 2 * r) eqn:E1, (r =? 0) eqn:E2, (2 * r =? 2 ^ k) eqn:E3,
    (2 ^ k <? 2 * r) eqn:E4;
    rewrite ?Z.eqb_eq, ?Z.eqb_neq, ?Z.leb_le, ?Z.leb_gt, ?Z.ltb_lt, ?Z.ltb_ge in *;
    try lia; cbn [negb orb andb loc_of_shr_record round_nearest_even];
    try reflexivity.
  rewrite <- Z.negb_odd. now destruct (Z.odd q).
Qed.

(** Conversion of a positive 32-bit integer: the nearest binary32 value. *)
Lemma of_Z_nearest n :
  0 < n < 2 ^ 32 ->
  Float32.of_Z n
  = S754_finite false (Z.to_pos (fst (nearest_parts n))) (snd (nearest_parts n)).
Proof.
  intros Hn. pose proof (Zdigits2_uint n Hn) as Hd.
  destruct (Zdigits2_bounds n) as [_ Hb]; [lia|].
  unfold nearest_parts. set (d := Zdigits2 n) in *.
  destruct n as [|p|p]; try lia.
  unfold Float32.of_Z, binary_normalize, binary_round, Float32.prec, Float32.emax.
  change (Z.pos (digits2_pos p)) with d.
  rewrite fexp_normal by lia. unfold shl_align.
  replace (d + 0 - 24 - 0) with (d - 24) by lia.
  destruct (d <=? 24) eqn:Ed.
  - apply Z.leb_le in Ed. cbn [fst snd].
    assert (Hpow : 2 ^ 23 <= Z.pos p * 2 ^ (24 - d) < 2 ^ 24).
    { replace (2 ^ 23) with (2 ^ (d - 1) * 2 ^ (24 - d))
        by (rewrite <- Z.pow_add_r by lia; f_equal; lia).
      replace (2 ^ 24) with (2 ^ d * 2 ^ (24 - d))
        by (rewrite <- Z.pow_add_r by lia; f_equal; lia).
      assert (0 < 2 ^ (24 - d)) by (apply Z.pow_pos_nonneg; lia).
      nia. }
    assert (Hres : forall mz ez,
              Z.pos mz = Z.pos p * 2 ^ (24 - d) -> ez = d - 24 ->
              binary_round_aux 24 128 false (Z.pos mz) ez loc_Exact
              = S754_finite false (Z.to_pos (Z.pos p * 2 ^ (24 - d))) ez).
    { intros mz ez Hmz Hez.
      destruct (binary_round_aux_normal false (Z.pos mz) ez loc_Exact 0)
        as (_ & _ & ->); try lia.
      change (Z.to_nat 0) with 0%nat.
      cbn [Nat.iter nat_rect shr_record_of_loc shr_m loc_of_shr_record
             round_nearest_even].
      unfold norm_finite.
      replace (Z.pos mz =? 2 ^ 24) with false by (symmetry; apply Z.eqb_neq; lia).
      rewrite Hmz. f_equal. lia. }
    destruct (d - 24) as [|κ|κ] eqn:Hκ.
    + apply Hres; [|lia]. replace (24 - d) with 0 by lia. lia.
    + lia.
    + replace (d + 0 - 24) with (Z.neg κ) by lia. apply Hres; [|lia].
      rewrite Pos_iter_xO. f_equal. f_equal. lia.
  - apply Z.leb_gt in Ed.
    destruct (d - 24) as [|κ|κ] eqn:Hκ; try lia. rewrite <- Hκ.
    set (k := d - 24) in *.
    assert (Hk : 0 <= k) by lia.
    assert (Hm : 2 ^ (23 + k) <= Z.pos p < 2 ^ (24 + k)).
    { replace (23 + k) with (d - 1) by lia. replace (24 + k) with d by lia.
      exact Hb. }
    destruct (binary_round_aux_normal false (Z.pos p) 0 loc_Exact k)
      as (_ & Hq & ->); try lia.
    cbn [shr_record_of_loc].
    destruct (shr_iter_exact (Z.pos p) (Z.to_nat k)) as (q & r & Hqr & Hr & Hq0 & ->);
      [lia|].
    rewrite Z2Nat.id in * by lia.
    assert (Hpk : 0 < 2 ^ k) by (apply Z.pow_pos_nonneg; lia).
    assert (Hdiv : Z.pos p / 2 ^ k = q)
      by (symmetry; apply (Z.div_unique_pos _ _ _ r); lia).
    assert (Hmod : Z.pos p mod 2 ^ k = r)
      by (symmetry; apply (Z.mod_unique_pos _ _ q); lia).
    rewrite Hdiv, Hmod. cbn [shr_m].
    rewrite round_nearest_even_rounds_up by exact Hr.
    unfold norm_finite.
    replace (0 + k) with k by lia.
    destruct ((if rounds_up q r k then q + 1 else q) =? 2 ^ 24); reflexivity.
Qed.

Lemma nearest_parts_shape n :
  0 < n < 2 ^ 32 ->
  (snd (nearest_parts n) = Zdigits2 n - 24
   /\ 2 ^ 23 <= fst (nearest_parts n) < 2 ^ 24)
  \/ (snd (nearest_parts n) = Zdigits2 n - 23
      /\ fst (nearest_parts n) = 2 ^ 23).
Proof.
  intros Hn. pose proof (Zdigits2_uint n Hn) as Hd.
  destruct (Zdigits2_bounds n) as [_ Hb]; [lia|].
  unfold nearest_parts. set (d := Zdigits2 n) in *.
  destruct (d <=? 24) eqn:Ed.
  - apply Z.leb_le in Ed. left. cbn [fst snd]. split; [reflexivity|].
    replace (2 ^ 23) with (2 ^ (d - 1) * 2 ^ (24 - d))
      by (rewrite <- Z.pow_add_r by lia; f_equal; lia).
    replace (2 ^ 24) with (2 ^ d * 2 ^ (24 - d))
      by (rewrite <- Z.pow_add_r by lia; f_equal; lia).
    assert (0 < 2 ^ (24 - d)) by (apply Z.pow_pos_nonneg; lia).
    nia.
  - apply Z.leb_gt in Ed. set (k := d - 24) in *.
    assert (Hk : 0 <= k) by lia.
    destruct (pow2_split k Hk) as [P24 P23].
    assert (Hpk : 0 < 2 ^ k) by (apply Z.pow_pos_nonneg; lia).
    replace (d - 1) with (23 + k) in Hb by lia.
    replace d with (24 + k) in Hb by lia.
    assert (Hq : 2 ^ 23 <= n / 2 ^ k < 2 ^ 24).
    { split.
      - apply Z.div_le_lower_bound; lia.
      - apply Z.div_lt_upper_bound; lia. }
    set (m := if rounds_up _ _ _ then _ else _).
    assert (Hm : 2 ^ 23 <= m <= 2 ^ 24)
      by (unfold m; destruct (rounds_up _ _ _); lia).
    destruct (m =? 2 ^ 24) eqn:Em.
    + right. cbn [fst snd]. split; [lia|reflexivity].
    + apply Z.eqb_neq in Em. left. cbn [fst snd]. split; lia.
Qed.

Lemma rounds_up_mono q ra rb k :
  ra <= rb -> rounds_up q ra k = true -> rounds_up q rb k = true.
Proof.
  unfold rounds_up. intros Hr.
  destruct (2 ^ k <? 2 * ra) eqn:E1, (2 * ra =? 2 ^ k) eqn:E2,
    (2 ^ k <? 2 * rb) eqn:E3, (2 * rb =? 2 ^ k) eqn:E4;
    rewrite ?Z.eqb_eq, ?Z.eqb_neq, ?Z.ltb_lt, ?Z.ltb_ge in *;
    try lia; simpl; auto.
Qed.

(** Conversion is monotone. *)
Lemma nearest_parts_mono a b :
  0 < a -> a <= b -> b < 2 ^ 32 ->
  parts_le (nearest_parts a) (nearest_parts b).
Proof.
  intros Ha Hab Hb.
  pose proof (nearest_parts_shape a ltac:(lia)) as Sa.
  pose proof (nearest_parts_shape b ltac:(lia)) as Sb.
  destruct (Zdigits2_bounds a) as [_ Ba]; [lia|].
  destruct (Zdigits2_bounds b) as [_ Bb]; [lia|].
  pose proof (Zdigits2_uint a ltac:(lia)) as Da.
  pose proof (Zdigits2_uint b ltac:(lia)) as Db.
  assert (Hd : Zdigits2 a <= Zdigits2 b).
  { destruct (Z_le_gt_dec (Zdigits2 a) (Zdigits2 b)) as [H|H]; [exact H|exfalso].
    pose proof (pow2_le_mono (Zdigits2 b) (Zdigits2 a - 1)). lia. }
  destruct (Z.eq_dec (Zdigits2 a) (Zdigits2 b)) as [Heq | Hne].
  - clear Sa Sb. unfold nearest_parts. rewrite <- Heq.
    set (d := Zdigits2 a) in *.
    destruct (d <=? 24) eqn:Ed.
    + apply Z.leb_le in Ed. right. cbn [fst snd]. split; [reflexivity|].
      apply Z.mul_le_mono_nonneg_r; [|exact Hab].
      apply Z.pow_nonneg. lia.
    + apply Z.leb_gt in Ed. set (k := d - 24) in *.
      assert (Hpk : 0 < 2 ^ k) by (apply Z.pow_pos_nonneg; lia).
      assert (Hk : 0 <= k) by lia.
      destruct (pow2_split k Hk) as [P24 P23].
      replace (d - 1) with (23 + k) in Ba by lia.
      replace d with (24 + k) in Ba by lia.
      rewrite <- Heq in Bb.
      replace (d - 1) with (23 + k) in Bb by lia.
      replace d with (24 + k) in Bb by lia.
      assert (Hqa : 2 ^ 23 <= a / 2 ^ k < 2 ^ 24).
      { split; [apply Z.div_le_lower_bound | apply Z.div_lt_upper_bound]; lia. }
      assert (Hqb : 2 ^ 23 <= b / 2 ^ k < 2 ^ 24).
      { split; [apply Z.div_le_lower_bound | apply Z.div_lt_upper_bound]; lia. }
      assert (Hq : a / 2 ^ k <= b / 2 ^ k) by (apply Z.div_le_mono; lia).
      pose proof (Z.div_mod a (2 ^ k) ltac:(lia)) as Ea.
      pose proof (Z.div_mod b (2 ^ k) ltac:(lia)) as Eb.
      set (qa := a / 2 ^ k) in *. set (qb := b / 2 ^ k) in *.
      set (ra := a mod 2 ^ k) in *. set (rb := b mod 2 ^ k) in *.
      set (ma := if rounds_up qa _ _ then _ else _).
      set (mb := if rounds_up qb _ _ then _ else _).
      clearbody qa qb ra rb.
      assert (Hm : ma <= mb).
      { destruct (Z.eq_dec qa qb) as [Hqeq | Hqne].
        - assert (Hr : ra <= rb) by (subst qb; lia).
          pose proof (rounds_up_mono qb ra rb k Hr) as Hup.
          unfold ma, mb. rewrite Hqeq.
          destruct (rounds_up qb ra k);
            [rewrite Hup by reflexivity; lia|].
          destruct (rounds_up qb rb k); lia.
        - unfold ma, mb.
          destruct (rounds_up qa ra k), (rounds_up qb rb k); lia. }
      assert (Hma : 2 ^ 23 <= ma <= 2 ^ 24)
        by (unfold ma; destruct (rounds_up qa ra k); lia).
      assert (Hmb : 2 ^ 23 <= mb <= 2 ^ 24)
        by (unfold mb; destruct (rounds_up qb rb k); lia).
      clearbody ma mb.
      unfold parts_le.
      destruct (ma =? 2 ^ 24) eqn:Ema, (mb =? 2 ^ 24) eqn:Emb;
        rewrite ?Z.eqb_eq, ?Z.eqb_neq in *; cbn [fst snd]; lia.
  - unfold parts_le. lia.
Qed.

Lemma binary_round_aux_bounds sx m e loc k :
  0 <= k -> 2 ^ (23 + k) <= m < 2 ^ (24 + k) ->
  -149 <= e -> e + k + 1 <= 104 ->
  exists m1,
    m / 2 ^ k <= m1 <= m / 2 ^ k + 1
    /\ 2 ^ 23 <= m / 2 ^ k < 2 ^ 24
    /\ binary_round_aux 24 128 sx m e loc = norm_finite sx m1 (e + k).
Proof.
  intros Hk Hm He Hmax.
  destruct (binary_round_aux_normal sx m e loc k Hk Hm He Hmax)
    as (Hs & Hq & Hres).
  eexists. split; [|split; [exact Hq | exact Hres]].
  rewrite <- Hs. apply round_nearest_even_bounds.
Qed.

Lemma div_finite pa ea pb eb :
  2 ^ 23 <= Z.pos pa < 2 ^ 24 -> 2 ^ 23 <= Z.pos pb < 2 ^ 24 ->
  -125 <= ea - eb ->
  Float32.div (S754_finite false pa ea) (S754_finite false pb eb)
  = binary_round_aux 24 128 false (Z.pos pa * 2 ^ 24 / Z.pos pb)
      (ea - eb - 24)
      (new_location (Z.pos pb) ((Z.pos pa * 2 ^ 24) mod Z.pos pb)).
Proof.
  intros Ha Hb He.
  unfold Float32.div, Float32.prec, Float32.emax, SFdiv, SFdiv_core_binary.
  rewrite (Zdigits2_unique (Z.pos pa) 24), (Zdigits2_unique (Z.pos pb) 24)
    by (simpl; lia).
  rewrite fexp_normal by lia.
  replace (Z.min (24 + ea - (24 + eb) - 24) (ea - eb)) with (ea - eb - 24) by lia.
  replace (ea - eb - (ea - eb - 24)) with 24 by lia.
  rewrite Z.shiftl_mul_pow2 by lia.
  unfold Z.div, Z.modulo.
  destruct (Z.div_eucl (Z.pos pa * 2 ^ 24) (Z.pos pb)) as [q r].
  reflexivity.
Qed.

Lemma leb_norm_finite_one m e :
  2 ^ 23 <= m <= 2 ^ 24 ->
  (if m =? 2 ^ 24 then e + 1 <= -23 else e < -23 \/ (e = -23 /\ m = 2 ^ 23)) ->
  Float32.leb (norm_finite false m e) Float32.one = true.
Proof.
  intros Hm H. unfold norm_finite.
  change Float32.one with (S754_finite false 8388608 (-23)).
  unfold Float32.leb, SFcompare.
  destruct (m =? 2 ^ 24).
  - destruct (Z.compare_spec (e + 1) (-23)); try reflexivity. lia.
  - destruct (Z.compare_spec e (-23)) as [E|E|E]; try reflexivity.
    + destruct H as [H | [_ ->]]; [lia|]. reflexivity.
    + lia.
Qed.

Lemma leb_zero_norm_finite m e :
  Float32.leb Float32.zero (norm_finite false m e) = true.
Proof.
  unfold norm_finite. now destruct (m =? 2 ^ 24).
Qed.

(** The quotient of two positive normalised values, the first not above
    the second, lies between zero and one. *)
Lemma div_in_unit_interval pa ea pb eb :
  2 ^ 23 <= Z.pos pa < 2 ^ 24 -> 2 ^ 23 <= Z.pos pb < 2 ^ 24 ->
  -23 <= ea <= 9 -> -23 <= eb <= 9 ->
  parts_le (Z.pos pa, ea) (Z.pos pb, eb) ->
  in_unit_interval
    (Float32.div (S754_finite false pa ea) (S754_finite false pb eb)) = true.
Proof.
  intros Ha Hb Hea Heb Hle. unfold parts_le in Hle. cbn [fst snd] in Hle.
  rewrite div_finite by lia.
  set (q := Z.pos pa * 2 ^ 24 / Z.pos pb).
  set (loc := new_location _ _).
  assert (Hq : 2 ^ 23 <= q < 2 ^ 25).
  { unfold q. split.
    - apply Z.div_le_lower_bound; lia.
    - apply Z.div_lt_upper_bound; lia. }
  unfold in_unit_interval.
  destruct (Z_lt_ge_dec q (2 ^ 24)) as [Hlt | Hge].
  - destruct (binary_round_aux_bounds false q (ea - eb - 24) loc 0)
      as (m1 & Hm1 & Hq0 & ->); try lia.
    rewrite leb_zero_norm_finite. cbn [andb].
    apply leb_norm_finite_one; [lia|].
    destruct (m1 =? 2 ^ 24) eqn:E; lia.
  - destruct Hle as [Hlt | [Heq Hmle]].
    + destruct (binary_round_aux_bounds false q (ea - eb - 24) loc 1)
        as (m1 & Hm1 & Hq1 & ->); try (change (23 + 1) with 24;
                                       change (24 + 1) with 25; lia).
      rewrite leb_zero_norm_finite. cbn [andb].
      apply leb_norm_finite_one; [lia|].
      destruct (m1 =? 2 ^ 24) eqn:E; lia.
    + assert (Hpab : pa = pb).
      { assert (Hq' : q <= 2 ^ 24)
          by (unfold q; apply Z.div_le_upper_bound; lia).
        assert (Hq2 : q = 2 ^ 24) by lia.
        pose proof (Z.div_mod (Z.pos pa * 2 ^ 24) (Z.pos pb) ltac:(lia)) as Hdm.
        pose proof (Z.mod_pos_bound (Z.pos pa * 2 ^ 24) (Z.pos pb) ltac:(lia)).
        fold q in Hdm. rewrite Hq2 in Hdm.
        assert (Z.pos pa = Z.pos pb) by lia. congruence. }
      subst pb. unfold q, loc.
      rewrite (Z.mul_comm (Z.pos pa)).
      rewrite Z.div_mul by lia. rewrite Z.mod_mul by lia.
      replace (ea - eb - 24) with (-24) by lia.
      replace (new_location (Z.pos pa) 0) with loc_Exact
        by (unfold new_location; destruct (Z.even (Z.pos pa)); reflexivity).
      vm_compute. reflexivity.
Qed.

(** The quotient of the conversions of two 32-bit integers, the first not
    above the second, lies between zero and one. *)
Lemma ratio_in_unit_interval a b :
  0 <= a <= b -> 0 < b < 2 ^ 32 ->
  in_unit_interval (Float32.div (Float32.of_Z a) (Float32.of_Z b)) = true.
Proof.
  intros Hab Hb.
  pose proof (nearest_parts_shape b Hb) as Sb.
  pose proof (Zdigits2_uint b Hb) as Db.
  rewrite (of_Z_nearest b Hb).
  destruct (Z.eq_dec a 0) as [-> | Ha].
  - reflexivity.
  - pose proof (nearest_parts_shape a ltac:(lia)) as Sa.
    pose proof (Zdigits2_uint a ltac:(lia)) as Da.
    pose proof (nearest_parts_mono a b ltac:(lia) ltac:(lia) ltac:(lia)) as Hle.
    rewrite (of_Z_nearest a) by lia.
    destruct (nearest_parts a) as [ma ea], (nearest_parts b) as [mb eb].
    cbn [fst snd] in *.
    assert (Hma : 2 ^ 23 <= ma < 2 ^ 24) by lia.
    assert (Hmb : 2 ^ 23 <= mb < 2 ^ 24) by lia.
    destruct ma as [|pa|pa]; try lia. destruct mb as [|pb|pb]; try lia.
    cbn [Z.to_pos].
    apply div_in_unit_interval; try assumption; lia.
Qed.

(** ** Metrics *)

Lemma UInt_add_small a b :
  0 <= a + b < UInt.modulus -> UInt.add a b = a + b.
Proof. intros H. unfold UInt.add, UInt.wrap. now apply Z.mod_small. Qed.

Lemma computePrecision_no_wrap tp fp :
  UInt.in_range tp -> UInt.in_range fp -> tp + fp < UInt.modulus ->
  computePrecision tp fp
  = if tp + fp =? 0 then Float32.one
    else Float32.div (Float32.of_Z tp) (Float32.of_Z (tp + fp)).
Proof.
  unfold UInt.in_range. intros Htp Hfp Hsum.
  unfold computePrecision. now rewrite UInt_add_small by lia.
Qed.

Lemma computeRecall_no_wrap tp fn :
  UInt.in_range tp -> UInt.in_range fn -> tp + fn < UInt.modulus ->
  computeRecall tp fn
  = if tp + fn =? 0 then Float32.one
    else Float32.div (Float32.of_Z tp) (Float32.of_Z (tp + fn)).
Proof.
  unfold UInt.in_range. intros Htp Hfn Hsum.
  unfold computeRecall. now rewrite UInt_add_small by lia.
Qed.

Lemma computeIntersectionOverUnion_no_wrap tp fp fn :
  UInt.in_range tp -> UInt.in_range fp -> UInt.in_range fn ->
  tp + fp + fn < UInt.modulus ->
  computeIntersectionOverUnion tp fp fn
  = if tp + fp + fn =? 0 then Float32.one
    else Float32.div (Float32.of_Z tp) (Float32.of_Z (tp + fp + fn)).
Proof.
  unfold UInt.in_range. intros Htp Hfp Hfn Hsum.
  unfold computeIntersectionOverUnion.
  now rewrite (UInt_add_small tp fp), UInt_add_small by lia.
Qed.

(** C1, the claim as stated fails: for TP = FP = [2^31] the sum TP+FP is
    not 0 and the quotient of TP and TP+FP is one half, yet
    [computePrecision] returns 1, because the sum wraps to 0 in [uint]. *)
Lemma precision_of_wrapped_sum_is_one :
  UInt.in_range 2147483648
  /\ 2147483648 + 2147483648 <> 0
  /\ computePrecision 2147483648 2147483648 = Float32.one
  /\ Float32.div (Float32.of_Z 2147483648)
       (Float32.of_Z (2147483648 + 2147483648))
     = S754_finite false 8388608 (-24)
  /\ computePrecision 2147483648 2147483648
     <> Float32.div (Float32.of_Z 2147483648)
          (Float32.of_Z (2147483648 + 2147483648)).
Proof.
  split; [unfold UInt.in_range, UInt.modulus; lia|].
  split; [lia|]. split; [reflexivity|]. split; [reflexivity|].
  vm_compute. discriminate.
Qed.

(** C1, amended: for counters whose sum in the denominator stays below
    [2^32], [computePrecision] returns the binary32 quotient of TP and
    TP+FP and exactly 1 when TP+FP = 0; [computeRecall] the quotient of TP
    and TP+FN and exactly 1 when TP+FN = 0; [computeIntersectionOverUnion]
    the quotient of TP and TP+FP+FN and exactly 1 when TP+FP+FN = 0. *)
Theorem metrics_are_ratios tp fp fn :
  UInt.in_range tp -> UInt.in_range fp -> UInt.in_range fn ->
  (tp + fp < UInt.modulus ->
   computePrecision tp fp
   = if tp + fp =? 0 then Float32.one
     else Float32.div (Float32.of_Z tp) (Float32.of_Z (tp + fp)))
  /\ (tp + fn < UInt.modulus ->
      computeRecall tp fn
      = if tp + fn =? 0 then Float32.one
        else Float32.div (Float32.of_Z tp) (Float32.of_Z (tp + fn)))
  /\ (tp + fp + fn < UInt.modulus ->
      computeIntersectionOverUnion tp fp fn
      = if tp + fp + fn =? 0 then Float32.one
        else Float32.div (Float32.of_Z tp) (Float32.of_Z (tp + fp + fn))).
Proof.
  intros Htp Hfp Hfn. split; [|split]; intros Hsum.
  - now apply computePrecision_no_wrap.
  - now apply computeRecall_no_wrap.
  - now apply computeIntersectionOverUnion_no_wrap.
Qed.

Lemma metrics_are_ratios_witness :
  UInt.in_range 1 /\ UInt.in_range 0 /\ UInt.in_range 1
  /\ computePrecision 1 0 = Float32.one
  /\ computeRecall 1 1 = Float32.div (Float32.of_Z 1) (Float32.of_Z 2)
  /\ computeIntersectionOverUnion 1 0 1
     = Float32.div (Float32.of_Z 1) (Float32.of_Z 2)
  /\ computePrecision 0 0 = Float32.one.
Proof.
  assert (H0 : UInt.in_range 0) by (unfold UInt.in_range, UInt.modulus; lia).
  assert (H1 : UInt.in_range 1) by (unfold UInt.in_range, UInt.modulus; lia).
  assert (Hs : 1 + 0 + 1 < UInt.modulus) by (unfold UInt.modulus; lia).
  destruct (metrics_are_ratios 1 0 1 H1 H0 H1) as (Hp & Hr & Hi).
  split; [exact H1|]. split; [exact H0|]. split; [exact H1|].
  split; [reflexivity|]. split; [exact (Hr Hs)|]. split; [exact (Hi Hs)|].
  reflexivity.
Defined.

(** C5, the claim as stated fails: for TP = [2^32 - 1] and FP = 2 the sum
    wraps to 1 and [computePrecision] returns [2^32], far above 1. *)
Lemma precision_above_one :
  UInt.in_range 4294967295 /\ UInt.in_range 2
  /\ computePrecision 4294967295 2 = Float32.of_Z 4294967296
  /\ in_unit_interval (computePrecision 4294967295 2) = false.
Proof.
  split; [unfold UInt.in_range, UInt.modulus; lia|].
  split; [unfold UInt.in_range, UInt.modulus; lia|].
  split; reflexivity.
Qed.

(** C5, amended: for counters whose sum in the denominator stays below
    [2^32], precision, recall and intersection over union lie between 0
    and 1, both included. *)
Theorem metrics_in_unit_interval tp fp fn :
  UInt.in_range tp -> UInt.in_range fp -> UInt.in_range fn ->
  (tp + fp < UInt.modulus ->
   in_unit_interval (computePrecision tp fp) = true)
  /\ (tp + fn < UInt.modulus ->
      in_unit_interval (computeRecall tp fn) = true)
  /\ (tp + fp + fn < UInt.modulus ->
      in_unit_interval (computeIntersectionOverUnion tp fp fn) = true).
Proof.
  intros Htp Hfp Hfn. split; [|split]; intros Hsum.
  - rewrite computePrecision_no_wrap by assumption.
    unfold UInt.in_range, UInt.modulus in *.
    destruct (tp + fp =? 0) eqn:E; [reflexivity|].
    apply Z.eqb_neq in E. apply ratio_in_unit_interval; lia.
  - rewrite computeRecall_no_wrap by assumption.
    unfold UInt.in_range, UInt.modulus in *.
    destruct (tp + fn =? 0) eqn:E; [reflexivity|].
    apply Z.eqb_neq in E. apply ratio_in_unit_interval; lia.
  - rewrite computeIntersectionOverUnion_no_wrap by assumption.
    unfold UInt.in_range, UInt.modulus in *.
    destruct (tp + fp + fn =? 0) eqn:E; [reflexivity|].
    apply Z.eqb_neq in E. apply ratio_in_unit_interval; lia.
Qed.

Lemma metrics_in_unit_interval_witness :
  UInt.in_range 1 /\ UInt.in_range 2 /\ UInt.in_range 3
  /\ in_unit_interval (computePrecision 1 2) = true
  /\ in_unit_interval (computeRecall 1 3) = true
  /\ in_unit_interval (computeIntersectionOverUnion 1 2 3) = true.
Proof.
  assert (H1 : UInt.in_range 1) by (unfold UInt.in_range, UInt.modulus; lia).
  assert (H2 : UInt.in_range 2) by (unfold UInt.in_range, UInt.modulus; lia).
  assert (H3 : UInt.in_range 3) by (unfold UInt.in_range, UInt.modulus; lia).
  destruct (metrics_in_unit_interval 1 2 3 H1 H2 H3) as (Hp & Hr & Hi).
  split; [exact H1|]. split; [exact H2|]. split; [exact H3|].
  split; [apply Hp; unfold UInt.modulus; lia|].
  split; [apply Hr; unfold UInt.modulus; lia|].
  apply Hi; unfold UInt.modulus; lia.
Defined.

(** The scenario of three eligible points with ground truth dynamic,
    dynamic, static and cluster-level prediction dynamic, static, static:
    one true positive, one false negative, one true negative; precision 1,
    recall and intersection over union one half. *)
Example three_points_scenario :
  let cloud := snd (filterEvaluatedPoints window_0_10 three_points_cloud) in
  let c := count_cloud cluster_level_dynamic cloud in
  fst (filterEvaluatedPoints window_0_10 three_points_cloud) = 3
  /\ c = mkCounters 1 0 1 1
  /\ computePrecision (c_tp c) (c_fp c) = Float32.one
  /\ computeRecall (c_tp c) (c_fn c) = S754_finite false 8388608 (-24)
  /\ computeIntersectionOverUnion (c_tp c) (c_fp c) (c_fn c)
     = S754_finite false 8388608 (-24).
Proof. vm_compute. repeat split. Qed.

(** The empty frame: all counters are 0 and the three metrics are 1. *)
Example empty_frame_scenario :
  let c := count_cloud cluster_level_dynamic (mkCloudInfo 0 []) in
  c = mkCounters 0 0 0 0
  /\ computePrecision (c_tp c) (c_fp c) = Float32.one
  /\ computeRecall (c_tp c) (c_fn c) = Float32.one
  /\ computeIntersectionOverUnion (c_tp c) (c_fp c) (c_fn c) = Float32.one.
Proof. vm_compute. repeat split. Qed.
(** ** The range filter *)

Lemma count_if_cons {A} (f : A -> bool) x l :
  count_if f (x :: l) = (if f x then 1 else 0) + count_if f l.
Proof.
  unfold count_if. simpl. destruct (f x); simpl; lia.
Qed.

Lemma count_if_bounds {A} (f : A -> bool) l :
  0 <= count_if f l <= Z.of_nat (length l).
Proof.
  induction l as [|x l IH]; [unfold count_if; simpl; lia|].
  rewrite count_if_cons. simpl length. destruct (f x); lia.
Qed.

Lemma set_ready_same point :
  set_ready_for_evaluation (ready_for_evaluation point) point = point.
Proof. now destruct point. Qed.

Lemma Int_incr_small n : 0 <= n < Int.max -> Int.incr n = n + 1.
Proof.
  unfold Int.incr, Int.wrap, Int.max. intros H.
  rewrite Z.mod_small; lia.
Qed.

Lemma filter_loop_points cfg n pts :
  snd (filter_loop cfg n pts)
  = map (fun p => set_ready_for_evaluation (eligible_after cfg p) p) pts.
Proof.
  revert n. induction pts as [|p pts IH]; intros n; [reflexivity|].
  simpl. unfold eligible_after at 1.
  destruct (within_range cfg p) eqn:Hw.
  - specialize (IH (Int.incr n)).
    destruct (filter_loop cfg (Int.incr n) pts) as [n' pts'].
    simpl in *. now rewrite orb_true_r, IH.
  - specialize (IH n). destruct (filter_loop cfg n pts) as [n' pts'].
    simpl in *. now rewrite orb_false_r, set_ready_same, IH.
Qed.

Lemma filter_loop_count cfg n pts :
  0 <= n -> n + Z.of_nat (length pts) <= Int.max ->
  fst (filter_loop cfg n pts) = n + count_if (within_range cfg) pts.
Proof.
  revert n. induction pts as [|p pts IH]; intros n Hn Hlen.
  - unfold count_if. simpl. lia.
  - rewrite count_if_cons. simpl length in Hlen. simpl.
    destruct (within_range cfg p) eqn:Hw.
    + specialize (IH (Int.incr n)).
      rewrite Int_incr_small in IH by lia.
      rewrite Int_incr_small by lia.
      destruct (filter_loop cfg (n + 1) pts) as [n' pts'].
      simpl in *. rewrite IH; lia.
    + specialize (IH n). destruct (filter_loop cfg n pts) as [n' pts'].
      simpl in *. rewrite IH; lia.
Qed.

Lemma filterEvaluatedPoints_points cfg cloud :
  points (snd (filterEvaluatedPoints cfg cloud))
  = map (fun p => set_ready_for_evaluation (eligible_after cfg p) p)
      (points cloud).
Proof.
  unfold filterEvaluatedPoints.
  pose proof (filter_loop_points cfg 0 (points cloud)) as H.
  destruct (filter_loop cfg 0 (points cloud)) as [n pts]. exact H.
Qed.

Lemma filterEvaluatedPoints_timestamp cfg cloud :
  timestamp (snd (filterEvaluatedPoints cfg cloud)) = timestamp cloud.
Proof.
  unfold filterEvaluatedPoints.
  now destruct (filter_loop cfg 0 (points cloud)) as [n pts].
Qed.

Lemma filterEvaluatedPoints_count cfg cloud :
  Z.of_nat (length (points cloud)) <= Int.max ->
  fst (filterEvaluatedPoints cfg cloud)
  = count_if (within_range cfg) (points cloud).
Proof.
  intros Hlen. unfold filterEvaluatedPoints.
  pose proof (filter_loop_count cfg 0 (points cloud)) as H.
  destruct (filter_loop cfg 0 (points cloud)) as [n pts].
  simpl in *. rewrite H; lia.
Qed.


(** ** The confusion matrix *)

Lemma UInt_wrap_incr x n : UInt.wrap (UInt.incr x + n) = UInt.wrap (x + 1 + n).
Proof.
  unfold UInt.incr, UInt.wrap. now rewrite Z.add_mod_idemp_l.
Qed.

Lemma count_loop_counter check o pts c :
  UInt.wrap (counter_of o (fold_left (count_point check) pts c))
  = UInt.wrap (counter_of o c + count_if (has_outcome check o) pts).
Proof.
  revert c. induction pts as [|p pts IH]; intros c.
  - unfold count_if. simpl. now rewrite Z.add_0_r.
  - simpl fold_left. rewrite IH, count_if_cons. clear IH.
    unfold count_point, has_outcome.
    destruct (ready_for_evaluation p); simpl; [|f_equal; lia].
    destruct (check p), (ground_truth_dynamic p), o; simpl;
      rewrite ?UInt_wrap_incr; f_equal; lia.
Qed.

Lemma count_point_in_range check c p :
  UInt.in_range (c_tp c) /\ UInt.in_range (c_fp c)
  /\ UInt.in_range (c_tn c) /\ UInt.in_range (c_fn c) ->
  let c' := count_point check c p in
  UInt.in_range (c_tp c') /\ UInt.in_range (c_fp c')
  /\ UInt.in_range (c_tn c') /\ UInt.in_range (c_fn c').
Proof.
  intros H. unfold count_point.
  assert (Hw : forall x, UInt.in_range (UInt.incr x)).
  { intros x. unfold UInt.in_range, UInt.incr, UInt.wrap, UInt.modulus.
    apply Z.mod_pos_bound. lia. }
  destruct (ready_for_evaluation p), (check p), (ground_truth_dynamic p);
    simpl; intuition auto.
Qed.

Lemma count_loop_in_range check pts c :
  UInt.in_range (c_tp c) /\ UInt.in_range (c_fp c)
  /\ UInt.in_range (c_tn c) /\ UInt.in_range (c_fn c) ->
  let c' := fold_left (count_point check) pts c in
  UInt.in_range (c_tp c') /\ UInt.in_range (c_fp c')
  /\ UInt.in_range (c_tn c') /\ UInt.in_range (c_fn c').
Proof.
  revert c. induction pts as [|p pts IH]; intros c H; [exact H|].
  simpl. apply IH. now apply count_point_in_range.
Qed.

(** Each counter of the matrix is the number of flagged points with that
    outcome, modulo [2^32]. *)
Lemma count_cloud_counter check o cloud :
  counter_of o (count_cloud check cloud)
  = UInt.wrap (count_if (has_outcome check o) (points cloud)).
Proof.
  unfold count_cloud.
  pose proof (count_loop_counter check o (points cloud) (mkCounters 0 0 0 0)) as H.
  pose proof (count_loop_in_range check (points cloud) (mkCounters 0 0 0 0)) as R.
  simpl in R. unfold UInt.in_range, UInt.modulus in R.
  destruct R as (R1 & R2 & R3 & R4); [lia|].
  replace (counter_of o (mkCounters 0 0 0 0)) with 0 in H by now destruct o.
  rewrite Z.add_0_l in H. rewrite <- H.
  unfold UInt.wrap, UInt.modulus.
  destruct o; simpl; now rewrite Z.mod_small.
Qed.

Lemma has_outcome_partition check pts :
  count_if (has_outcome check TruePositive) pts
  + count_if (has_outcome check FalsePositive) pts
  + count_if (has_outcome check TrueNegative) pts
  + count_if (has_outcome check FalseNegative) pts
  = count_if ready_for_evaluation pts.
Proof.
  induction pts as [|p pts IH]; [reflexivity|].
  rewrite !count_if_cons, <- IH. unfold has_outcome.
  destruct (ready_for_evaluation p), (check p), (ground_truth_dynamic p);
    simpl; lia.
Qed.

(** Without wrap-around the counters add up to the number of flagged
    points. *)
Lemma count_cloud_total check cloud :
  Z.of_nat (length (points cloud)) < UInt.modulus ->
  total (count_cloud check cloud) = count_if ready_for_evaluation (points cloud).
Proof.
  intros Hlen. unfold total.
  change (c_tp (count_cloud check cloud))
    with (counter_of TruePositive (count_cloud check cloud)).
  change (c_fp (count_cloud check cloud))
    with (counter_of FalsePositive (count_cloud check cloud)).
  change (c_tn (count_cloud check cloud))
    with (counter_of TrueNegative (count_cloud check cloud)).
  change (c_fn (count_cloud check cloud))
    with (counter_of FalseNegative (count_cloud check cloud)).
  rewrite !count_cloud_counter, <- (has_outcome_partition check).
  unfold UInt.wrap.
  pose proof (count_if_bounds (has_outcome check TruePositive) (points cloud)).
  pose proof (count_if_bounds (has_outcome check FalsePositive) (points cloud)).
  pose proof (count_if_bounds (has_outcome check TrueNegative) (points cloud)).
  pose proof (count_if_bounds (has_outcome check FalseNegative) (points cloud)).
  rewrite !Z.mod_small by lia. reflexivity.
Qed.

Lemma count_if_map {A B} (f : B -> bool) (g : A -> B) l :
  count_if f (map g l) = count_if (fun x => f (g x)) l.
Proof.
  induction l as [|x l IH]; [reflexivity|].
  simpl map. now rewrite !count_if_cons, IH.
Qed.

Lemma count_if_ext_in {A} (f g : A -> bool) l :
  Forall (fun x => f x = g x) l -> count_if f l = count_if g l.
Proof.
  induction 1 as [|x l Hx _ IH]; [reflexivity|].
  now rewrite !count_if_cons, Hx, IH.
Qed.

(** The flagged points of the filtered cloud are the points that were
    flagged or lie in the window. *)
Lemma count_ready_filtered cfg cloud :
  count_if ready_for_evaluation (points (snd (filterEvaluatedPoints cfg cloud)))
  = count_if (eligible_after cfg) (points cloud).
Proof.
  rewrite filterEvaluatedPoints_points, count_if_map. reflexivity.
Qed.

Lemma length_filtered cfg cloud :
  length (points (snd (filterEvaluatedPoints cfg cloud)))
  = length (points cloud).
Proof.
  now rewrite filterEvaluatedPoints_points, length_map.
Qed.

(** C3, the claim as stated fails: the point of [far_flagged_cloud] lies
    outside the window, yet its flag stays set after the filter, and the
    returned count, 0, is not the number of flagged points, 1. *)
Lemma filter_flag_differs_from_window :
  ~ Forall (fun p => ready_for_evaluation p = within_range window_0_10 p)
      (points (snd (filterEvaluatedPoints window_0_10 far_flagged_cloud)))
  /\ fst (filterEvaluatedPoints window_0_10 far_flagged_cloud)
     <> count_if ready_for_evaluation
          (points (snd (filterEvaluatedPoints window_0_10 far_flagged_cloud))).
Proof.
  split.
  - intros H. apply Forall_inv in H. vm_compute in H. discriminate H.
  - vm_compute. discriminate.
Qed.

(** C3, amended: for every point the filter sets the flag when the distance
    lies in the window from [min_range] to [max_range] and leaves the flag
    as it was otherwise, so the flag after the call is the flag before or
    the window test; nothing else of the cloud changes; and for a cloud of
    at most [Int.max] points the returned count is the number of points in
    the window. *)
Theorem filterEvaluatedPoints_sets_flags cfg cloud :
  Z.of_nat (length (points cloud)) <= Int.max ->
  points (snd (filterEvaluatedPoints cfg cloud))
  = map (fun p =>
           set_ready_for_evaluation
             (ready_for_evaluation p || within_range cfg p) p)
      (points cloud)
  /\ timestamp (snd (filterEvaluatedPoints cfg cloud)) = timestamp cloud
  /\ fst (filterEvaluatedPoints cfg cloud)
     = count_if (within_range cfg) (points cloud).
Proof.
  intros Hlen. split; [apply filterEvaluatedPoints_points|].
  split; [apply filterEvaluatedPoints_timestamp|].
  now apply filterEvaluatedPoints_count.
Qed.

Lemma filterEvaluatedPoints_sets_flags_witness :
  Z.of_nat (length (points three_points_cloud)) <= Int.max
  /\ points (snd (filterEvaluatedPoints window_0_10 three_points_cloud))
     = map (fun p =>
              set_ready_for_evaluation
                (ready_for_evaluation p || within_range window_0_10 p) p)
         (points three_points_cloud)
  /\ timestamp (snd (filterEvaluatedPoints window_0_10 three_points_cloud))
     = timestamp three_points_cloud
  /\ fst (filterEvaluatedPoints window_0_10 three_points_cloud)
     = count_if (within_range window_0_10) (points three_points_cloud).
Proof.
  split; [vm_compute; discriminate|].
  apply (filterEvaluatedPoints_sets_flags window_0_10 three_points_cloud).
  vm_compute. discriminate.
Defined.

(** C4, the claim as stated fails: on [far_flagged_cloud] the filter
    returns 0 while the counters of the cluster level add up to 1. *)
Lemma confusion_total_differs_from_filter_count :
  check_level_of "cluster" = Some cluster_level_dynamic
  /\ fst (filterEvaluatedPoints window_0_10 far_flagged_cloud) = 0
  /\ total (count_cloud cluster_level_dynamic
              (snd (filterEvaluatedPoints window_0_10 far_flagged_cloud))) = 1
  /\ total (count_cloud cluster_level_dynamic
              (snd (filterEvaluatedPoints window_0_10 far_flagged_cloud)))
     <> fst (filterEvaluatedPoints window_0_10 far_flagged_cloud).
Proof.
  repeat split; vm_compute; congruence.
Qed.

(** C4, amended: for every frame of at most [Int.max] points in which no
    point arrives flagged outside the window, and every level among point,
    cluster and object, the four counters that [evaluateCloudAtLevel]
    computes and writes add up to the count returned by the range filter. *)
Theorem confusion_total_is_filter_count cfg cloud level check out lg :
  check_level_of level = Some check ->
  Z.of_nat (length (points cloud)) <= Int.max ->
  flags_within cfg cloud ->
  evaluateCloudAtLevel (snd (filterEvaluatedPoints cfg cloud)) level out lg
  = (out ++ metrics_columns
              (count_cloud check (snd (filterEvaluatedPoints cfg cloud))), lg)
  /\ total (count_cloud check (snd (filterEvaluatedPoints cfg cloud)))
     = fst (filterEvaluatedPoints cfg cloud).
Proof.
  intros Hlevel Hlen Hflags. split.
  - unfold evaluateCloudAtLevel. now rewrite Hlevel.
  - rewrite count_cloud_total.
    + rewrite count_ready_filtered, filterEvaluatedPoints_count by exact Hlen.
      apply count_if_ext_in. unfold flags_within in Hflags.
      eapply Forall_impl; [exact Hflags|].
      intros p Hp. unfold eligible_after.
      destruct (ready_for_evaluation p) eqn:E; [simpl; symmetry; auto|reflexivity].
    + rewrite length_filtered. unfold Int.max in Hlen. unfold UInt.modulus. lia.
Qed.

Lemma confusion_total_is_filter_count_witness :
  check_level_of "cluster" = Some cluster_level_dynamic
  /\ Z.of_nat (length (points three_points_cloud)) <= Int.max
  /\ flags_within window_0_10 three_points_cloud
  /\ total (count_cloud cluster_level_dynamic
              (snd (filterEvaluatedPoints window_0_10 three_points_cloud)))
     = fst (filterEvaluatedPoints window_0_10 three_points_cloud).
Proof.
  assert (Hlen : Z.of_nat (length (points three_points_cloud)) <= Int.max)
    by (vm_compute; discriminate).
  assert (Hflags : flags_within window_0_10 three_points_cloud)
    by (repeat constructor; discriminate).
  split; [reflexivity|]. split; [exact Hlen|]. split; [exact Hflags|].
  exact (proj2 (confusion_total_is_filter_count window_0_10 three_points_cloud
                  "cluster" cluster_level_dynamic [] [] eq_refl Hlen Hflags)).
Defined.

(** ** The range buckets *)

Lemma bucket_at_push_eq i d (ranges : list (list float)) :
  (i < length ranges)%nat ->
  bucket_at (push_range i d ranges) i = bucket_at ranges i ++ [d].
Proof.
  intros Hi. unfold bucket_at, push_range.
  rewrite list_lookup_alter_eq.
  destruct (lookup_lt_is_Some_2 ranges i Hi) as [b Hb].
  now rewrite Hb.
Qed.

Lemma bucket_at_push_ne i j d (ranges : list (list float)) :
  i <> j -> bucket_at (push_range i d ranges) j = bucket_at ranges j.
Proof.
  intros Hij. unfold bucket_at, push_range.
  now rewrite list_lookup_alter_ne.
Qed.

Lemma length_push_range i d (ranges : list (list float)) :
  length (push_range i d ranges) = length ranges.
Proof. apply length_alter. Qed.

Lemma length_collect_point ranges p :
  length (collect_point ranges p) = length ranges.
Proof.
  unfold collect_point.
  destruct (ready_for_evaluation p), (cluster_level_dynamic p),
    (ground_truth_dynamic p); simpl; auto using length_push_range.
Qed.

Lemma collect_point_bucket ranges p o :
  length ranges = 4%nat ->
  bucket_at (collect_point ranges p) (bucket_index o)
  = bucket_at ranges (bucket_index o)
    ++ (if has_outcome cluster_level_dynamic o p
        then [distance_to_sensor p] else []).
Proof.
  intros Hlen. unfold collect_point, has_outcome.
  destruct (ready_for_evaluation p); simpl; [|now rewrite app_nil_r].
  destruct (cluster_level_dynamic p), (ground_truth_dynamic p), o; simpl;
    rewrite ?app_nil_r;
    first [ apply bucket_at_push_eq; lia
          | apply bucket_at_push_ne; lia ].
Qed.

Lemma collect_loop_bucket pts ranges o :
  length ranges = 4%nat ->
  bucket_at (fold_left collect_point pts ranges) (bucket_index o)
  = bucket_at ranges (bucket_index o)
    ++ map distance_to_sensor
         (List.filter (has_outcome cluster_level_dynamic o) pts).
Proof.
  revert ranges. induction pts as [|p pts IH]; intros ranges Hlen.
  - simpl. now rewrite app_nil_r.
  - simpl fold_left. rewrite IH by now rewrite length_collect_point.
    rewrite collect_point_bucket by exact Hlen.
    simpl List.filter.
    destruct (has_outcome cluster_level_dynamic o p); simpl.
    + now rewrite <- app_assoc.
    + now rewrite app_nil_r.
Qed.

(** Every flagged point goes to the bucket of its outcome at cluster level,
    in the order of the cloud, and to no other bucket. *)
Lemma collect_ranges_bucket ranges cloud o :
  length ranges = 4%nat ->
  bucket_at (collect_ranges ranges cloud) (bucket_index o)
  = bucket_at ranges (bucket_index o)
    ++ map distance_to_sensor
         (List.filter (has_outcome cluster_level_dynamic o) (points cloud)).
Proof. apply collect_loop_bucket. Qed.

Lemma length_collect_ranges ranges cloud :
  length (collect_ranges ranges cloud) = length ranges.
Proof.
  unfold collect_ranges. revert ranges.
  induction (points cloud) as [|p pts IH]; intros ranges; [reflexivity|].
  simpl. now rewrite IH, length_collect_point.
Qed.

Lemma filter_map_comm {A B} (f : B -> bool) (g : A -> B) l :
  List.filter f (map g l) = map g (List.filter (fun x => f (g x)) l).
Proof.
  induction l as [|x l IH]; [reflexivity|].
  simpl. destruct (f (g x)); simpl; now rewrite IH.
Qed.

Lemma filter_ext_all {A} (f g : A -> bool) l :
  (forall x, f x = g x) -> List.filter f l = List.filter g l.
Proof.
  intros H. induction l as [|x l IH]; [reflexivity|].
  simpl. now rewrite H, IH.
Qed.

Lemma check_level_of_cases level check :
  check_level_of level = Some check ->
  check = ever_free_level_dynamic \/ check = cluster_level_dynamic
  \/ check = object_level_dynamic.
Proof.
  unfold check_level_of.
  destruct (String.eqb level "point"); [intros [= <-]; auto|].
  destruct (String.eqb level "cluster"); [intros [= <-]; auto|].
  destruct (String.eqb level "object"); [intros [= <-]; auto|].
  discriminate.
Qed.

Lemma has_outcome_set_ready level check cfg o p :
  check_level_of level = Some check ->
  has_outcome check o (set_ready_for_evaluation (eligible_after cfg p) p)
  = eligible_with_outcome cfg check o p.
Proof.
  intros H. destruct (check_level_of_cases _ _ H) as [-> | [-> | ->]];
    reflexivity.
Qed.

Lemma lookup_map_Some {A B} (f : A -> B) (l : list A) i x :
  l !! i = Some x -> map f l !! i = Some (f x).
Proof.
  revert i. induction l as [|y l IH]; intros [|i] H; simpl in *;
    try discriminate.
  - now injection H as ->.
  - now apply IH.
Qed.

Lemma lookup_In {A} (l : list A) i x : l !! i = Some x -> In x l.
Proof.
  revert i. induction l as [|y l IH]; intros [|i] H; simpl in *;
    try discriminate.
  - injection H as ->. now left.
  - right. eapply IH, H.
Qed.

Lemma count_if_In {A} (f : A -> bool) l x :
  In x l -> f x = true -> 1 <= count_if f l.
Proof.
  intros Hin Hf. induction l as [|y l IH]; [destruct Hin|].
  rewrite count_if_cons. pose proof (count_if_bounds f l).
  destruct Hin as [-> | Hin]; [rewrite Hf; lia|].
  specialize (IH Hin). destruct (f y); lia.
Qed.

Lemma Outcome_eqb_refl o : Outcome_eqb o o = true.
Proof. now destruct o. Qed.

(** C9: the filter never takes a flag away. A point that arrives flagged
    is left as it is, so it is still flagged after the filter whatever its
    distance; the counter of each outcome at each level is then the number
    (modulo [2^32]) of points that were flagged on entry or lie in the
    window, the arriving point among them; and each bucket receives the
    distances of exactly these points, the distance of the arriving point
    among them. *)
Theorem flagged_point_stays_eligible cfg cloud i p level check ranges :
  points cloud !! i = Some p ->
  ready_for_evaluation p = true ->
  check_level_of level = Some check ->
  length ranges = 4%nat ->
  points (snd (filterEvaluatedPoints cfg cloud)) !! i = Some p
  /\ (forall o,
        counter_of o (count_cloud check (snd (filterEvaluatedPoints cfg cloud)))
        = UInt.wrap
            (count_if (eligible_with_outcome cfg check o) (points cloud)))
  /\ 1 <= count_if
            (eligible_with_outcome cfg check
               (outcome_of (check p) (ground_truth_dynamic p)))
            (points cloud)
  /\ (forall o,
        bucket_at
          (collect_ranges ranges (snd (filterEvaluatedPoints cfg cloud)))
          (bucket_index o)
        = bucket_at ranges (bucket_index o)
          ++ map distance_to_sensor
               (List.filter
                  (eligible_with_outcome cfg cluster_level_dynamic o)
                  (points cloud)))
  /\ In (distance_to_sensor p)
       (bucket_at
          (collect_ranges ranges (snd (filterEvaluatedPoints cfg cloud)))
          (bucket_index
             (outcome_of (cluster_level_dynamic p) (ground_truth_dynamic p)))).
Proof.
  intros Hp Hready Hlevel Hlen.
  assert (Helig : forall chk,
             eligible_with_outcome cfg chk
               (outcome_of (chk p) (ground_truth_dynamic p)) p = true).
  { intros chk. unfold eligible_with_outcome, eligible_after.
    now rewrite Hready, Outcome_eqb_refl. }
  assert (Hbuckets : forall o,
    bucket_at (collect_ranges ranges (snd (filterEvaluatedPoints cfg cloud)))
      (bucket_index o)
    = bucket_at ranges (bucket_index o)
      ++ map distance_to_sensor
           (List.filter (eligible_with_outcome cfg cluster_level_dynamic o)
              (points cloud))).
  { intros o. rewrite collect_ranges_bucket by exact Hlen.
    rewrite filterEvaluatedPoints_points, filter_map_comm, map_map.
    rewrite (filter_ext_all _ (eligible_with_outcome cfg cluster_level_dynamic o))
      by (intros x; now apply (has_outcome_set_ready "cluster")).
    reflexivity. }
  split; [|split; [|split; [|split]]].
  - rewrite filterEvaluatedPoints_points.
    erewrite lookup_map_Some by exact Hp.
    f_equal. unfold eligible_after. rewrite Hready. simpl.
    rewrite <- Hready. apply set_ready_same.
  - intros o. rewrite count_cloud_counter, filterEvaluatedPoints_points.
    rewrite count_if_map. f_equal. apply count_if_ext_in.
    apply Forall_forall. intros x _.
    now apply (has_outcome_set_ready level).
  - eapply count_if_In; [eapply lookup_In, Hp | apply Helig].
  - exact Hbuckets.
  - rewrite Hbuckets. apply in_or_app. right.
    apply in_map, filter_In. split; [eapply lookup_In, Hp | apply Helig].
Qed.

Lemma flagged_point_stays_eligible_witness :
  points far_flagged_cloud !! 0%nat = Some far_flagged_point
  /\ ready_for_evaluation far_flagged_point = true
  /\ within_range window_0_10 far_flagged_point = false
  /\ points (snd (filterEvaluatedPoints window_0_10 far_flagged_cloud)) !! 0%nat
     = Some far_flagged_point
  /\ In (distance_to_sensor far_flagged_point)
       (bucket_at
          (collect_ranges empty_ranges
             (snd (filterEvaluatedPoints window_0_10 far_flagged_cloud)))
          (bucket_index
             (outcome_of (cluster_level_dynamic far_flagged_point)
                (ground_truth_dynamic far_flagged_point)))).
Proof.
  pose proof (flagged_point_stays_eligible window_0_10 far_flagged_cloud 0
                far_flagged_point "cluster" cluster_level_dynamic empty_ranges
                eq_refl eq_refl eq_refl eq_refl) as (H1 & _ & _ & _ & H5).
  split; [reflexivity|]. split; [reflexivity|]. split; [reflexivity|].
  split; [exact H1 | exact H5].
Defined.

(** C2, the defect at a concrete input: after [evaluateRanges] on a cloud
    whose only point is a true negative at distance 5, the TrueNegative
    bucket holds that distance, yet the line of the ranges file labelled TN
    lists nothing, because the lines TN and FN are written from the
    FalsePositive bucket. *)
Theorem ranges_file_tn_line_misses_tn_bucket :
  bucket_at
    (ranges_ (fst (evaluateRanges ranges_evaluator true_negative_cloud
                     empty_world)))
    (bucket_index TrueNegative)
  = [Float32.of_Z 5]
  /\ file_content
       (snd (evaluateRanges ranges_evaluator true_negative_cloud empty_world))
       "out/ranges.csv"
     = [TStr "TP"; TStr (String "010" "FP"); TStr (String "010" "TN");
        TStr (String "010" "FN"); TStr (String "010" "")].
Proof.
  split.
  - reflexivity.
  - unfold file_content, evaluateRanges, with_fs, write_trunc. simpl files.
    unfold path_in. simpl append. rewrite lookup_insert_eq. reflexivity.
Qed.

(** ** Evaluation levels *)

Lemma evaluate_levels_closed cloud levels out lg :
  evaluate_levels cloud levels out lg
  = (out ++ flat_map (columns_of_level cloud) levels,
     lg ++ flat_map reports_of_level levels).
Proof.
  unfold evaluate_levels. revert out lg.
  induction levels as [|level levels IH]; intros out lg.
  - simpl. now rewrite !app_nil_r.
  - simpl fold_left. simpl flat_map.
    unfold evaluateCloudAtLevel at 2.
    unfold columns_of_level at 1, reports_of_level at 1.
    destruct (check_level_of level) as [check|]; rewrite IH; simpl;
      now rewrite <- ?app_assoc.
Qed.

Lemma check_level_of_unknown level :
  level <> "point"%string -> level <> "cluster"%string ->
  level <> "object"%string ->
  check_level_of level = None.
Proof.
  intros H1 H2 H3. unfold check_level_of.
  apply String.eqb_neq in H1, H2, H3. now rewrite H1, H2, H3.
Qed.

(** C6: a level that is none of point, cluster and object is reported in
    the log and nothing is sent to the scores file for it; in the loop over
    the levels of a frame the columns of all the other levels are written as
    if the unknown level were not in the list, and the report is in the
    log. *)
Theorem unknown_level_is_reported_and_skipped cloud level :
  level <> "point"%string -> level <> "cluster"%string ->
  level <> "object"%string ->
  (forall out lg,
     evaluateCloudAtLevel cloud level out lg
     = (out, lg ++ [unknown_level_report level]))
  /\ (forall before after out lg,
        fst (evaluate_levels cloud (before ++ level :: after) out lg)
        = fst (evaluate_levels cloud (before ++ after) out lg)
        /\ snd (evaluate_levels cloud (before ++ level :: after) out lg)
           = snd (evaluate_levels cloud before out lg)
             ++ [unknown_level_report level]
             ++ flat_map reports_of_level after).
Proof.
  intros H1 H2 H3.
  pose proof (check_level_of_unknown level H1 H2 H3) as Hnone.
  split.
  - intros out lg. unfold evaluateCloudAtLevel. now rewrite Hnone.
  - intros before after out lg. rewrite !evaluate_levels_closed.
    cbn [fst snd]. rewrite !flat_map_app. simpl flat_map.
    unfold columns_of_level at 2, reports_of_level at 2. rewrite Hnone.
    simpl. split; [reflexivity|]. now rewrite <- app_assoc.
Qed.

Lemma unknown_level_is_reported_and_skipped_witness :
  fst (evaluate_levels three_points_cloud ["point"; "voxel"; "object"]%string
         [] [])
  = fst (evaluate_levels three_points_cloud ["point"; "object"]%string [] [])
  /\ evaluateCloudAtLevel three_points_cloud "voxel" [] []
     = ([], [unknown_level_report "voxel"]).
Proof.
  assert (H1 : "voxel"%string <> "point"%string) by discriminate.
  assert (H2 : "voxel"%string <> "cluster"%string) by discriminate.
  assert (H3 : "voxel"%string <> "object"%string) by discriminate.
  pose proof (unknown_level_is_reported_and_skipped three_points_cloud
                "voxel" H1 H2 H3) as [Ha Hb].
  split.
  - exact (proj1 (Hb ["point"%string] ["object"%string] [] [])).
  - exact (Ha [] []).
Defined.

(** ** Construction *)

(** What a construction that returns has done: the directory it chose,
    which [create_directories] could make, the members of the evaluator,
    and the files, directories and log it leaves. *)
Lemma Evaluator_new_Some now cfg w0 ev w :
  Evaluator_new now cfg w0 = Some (ev, w) ->
  let dir :=
    if fs_exists (output_directory cfg) (fs w0)
    then (output_directory cfg ++ "/" ++ put_time now)%string
    else output_directory cfg in
  blocked dir (fs w0) = false
  /\ config_ ev = cfg
  /\ output_directory_ ev = dir
  /\ gt_frame_counter_ ev = 0
  /\ evaluated_levels_ ev
     = (if evaluate_point_level cfg then ["point"%string] else [])
       ++ (if evaluate_cluster_level cfg then ["cluster"%string] else [])
       ++ (if evaluate_object_level cfg then ["object"%string] else [])
  /\ ranges_ ev = (if evaluate_ranges cfg then replicate 4 [] else [])
  /\ dirs (fs w) = dirs (fs w0) ∪ list_to_set (ancestors_from "" dir)
  /\ files (fs w)
     = <[path_in dir scores_file_name_ :=
           [TStr "timestamp,"] ++ flat_map header_of_level (evaluated_levels_ ev)
           ++ [TStr "EvaluatedPoints,TotalPoints"; TEndl]]> (files (fs w0))
  /\ log w
     = log w0 ++ [(INFO, [TStr "Writing evaluation to '"; TStr dir; TStr "."])].
Proof.
  unfold Evaluator_new, setupFiles.
  cbn [initial_evaluator config_ evaluated_levels_ ranges_ gt_frame_counter_].
  set (dir := if fs_exists _ _ then _ else _).
  unfold create_directories.
  destruct (blocked dir (fs w0)) eqn:Hb; [discriminate|].
  intros [= <- <-]. cbn zeta. repeat split.
Qed.

(** A construction returns exactly when the directory it chose can be
    made; otherwise [create_directories] throws and there is no
    evaluator. *)
Lemma Evaluator_new_returns now cfg w0 :
  let dir :=
    if fs_exists (output_directory cfg) (fs w0)
    then (output_directory cfg ++ "/" ++ put_time now)%string
    else output_directory cfg in
  if blocked dir (fs w0) then Evaluator_new now cfg w0 = None
  else exists ev w, Evaluator_new now cfg w0 = Some (ev, w).
Proof.
  unfold Evaluator_new, setupFiles. cbn zeta.
  set (dir := if fs_exists _ _ then _ else _).
  unfold create_directories.
  destruct (blocked dir (fs w0)); [reflexivity|]. eauto.
Qed.

(** ** Files of the evaluator *)

Lemma append_cancel_l (d a b : string) :
  (d ++ a)%string = (d ++ b)%string -> a = b.
Proof.
  induction d as [|c d IH]; simpl; [auto|].
  intros [= H]. auto.
Qed.

Lemma path_in_inj dir a b : path_in dir a = path_in dir b -> a = b.
Proof.
  unfold path_in. intros H.
  apply append_cancel_l in H. now apply (append_cancel_l "/") in H.
Qed.

Lemma scores_ne_timings ev : timings_path ev <> scores_path ev.
Proof. intros H. apply path_in_inj in H. discriminate H. Qed.

Lemma scores_ne_ranges ev : ranges_path ev <> scores_path ev.
Proof. intros H. apply path_in_inj in H. discriminate H. Qed.

Lemma ranges_ne_timings ev : timings_path ev <> ranges_path ev.
Proof. intros H. apply path_in_inj in H. discriminate H. Qed.

Lemma line_ends_app l1 l2 : line_ends (l1 ++ l2) = line_ends l1 + line_ends l2.
Proof.
  induction l1 as [|t l1 IH]; simpl; [reflexivity|].
  rewrite IH. lia.
Qed.

Lemma line_ends_columns cloud levels :
  line_ends (flat_map (columns_of_level cloud) levels) = 0.
Proof.
  induction levels as [|level levels IH]; [reflexivity|].
  simpl. rewrite line_ends_app, IH. unfold columns_of_level.
  now destruct (check_level_of level).
Qed.

(** The row of a frame: the time stamp, the columns of the levels, the two
    counts and the end of the line. *)
Lemma scores_row_closed ev cloud lg :
  scores_row ev cloud lg
  = ([TNum (timestamp cloud)]
     ++ flat_map (columns_of_level (snd (filterEvaluatedPoints (config_ ev) cloud)))
          (evaluated_levels_ ev)
     ++ [TStr ","; TNum (fst (filterEvaluatedPoints (config_ ev) cloud));
         TStr ","; TNum (Z.of_nat (length (points cloud))); TEndl],
     snd (filterEvaluatedPoints (config_ ev) cloud),
     lg ++ flat_map reports_of_level (evaluated_levels_ ev)).
Proof.
  unfold scores_row.
  pose proof (length_filtered (config_ ev) cloud) as Hl.
  destruct (filterEvaluatedPoints (config_ ev) cloud) as [n cloud'].
  simpl in *. rewrite evaluate_levels_closed, Hl.
  now rewrite <- app_assoc.
Qed.

Lemma scores_row_line_ends ev cloud lg :
  line_ends (fst (fst (scores_row ev cloud lg))) = 1.
Proof.
  rewrite scores_row_closed. cbn [fst].
  rewrite !line_ends_app, line_ends_columns. reflexivity.
Qed.

Lemma scores_row_last ev cloud lg :
  last (fst (fst (scores_row ev cloud lg))) = Some TEndl.
Proof.
  rewrite scores_row_closed. cbn [fst].
  rewrite !app_assoc. change [TStr ","; ?a; ?b; ?c; TEndl]
    with ([TStr ","; a; b; c] ++ [TEndl]).
  rewrite app_assoc. apply last_snoc.
Qed.

Lemma file_content_write_trunc_eq w p content :
  file_content (with_fs (write_trunc p content) w) p = content.
Proof.
  unfold file_content, with_fs, write_trunc. simpl.
  now rewrite lookup_insert_eq.
Qed.

Lemma lookup_write_trunc_ne w p q content :
  p <> q ->
  files (fs (with_fs (write_trunc p content) w)) !! q = files (fs w) !! q.
Proof.
  intros Hne. unfold with_fs, write_trunc. simpl.
  now rewrite lookup_insert_ne.
Qed.

(** What [evaluateRanges] leaves alone. *)
Lemma evaluateRanges_frame ev cloud w :
  let r := evaluateRanges ev cloud w in
  config_ (fst r) = config_ ev
  /\ output_directory_ (fst r) = output_directory_ ev
  /\ gt_frame_counter_ (fst r) = gt_frame_counter_ ev
  /\ evaluated_levels_ (fst r) = evaluated_levels_ ev
  /\ log (snd r) = log w
  /\ dirs (fs (snd r)) = dirs (fs w)
  /\ forall q, ranges_path ev <> q ->
               files (fs (snd r)) !! q = files (fs w) !! q.
Proof.
  unfold evaluateRanges. simpl. repeat split.
  intros q Hq. now rewrite lookup_insert_ne.
Qed.

(** What [writeScoresToFile] does to the evaluator and to the files. *)
Lemma writeScoresToFile_effect ev cloud w :
  let r := writeScoresToFile ev cloud w in
  config_ (fst (fst r)) = config_ ev
  /\ output_directory_ (fst (fst r)) = output_directory_ ev
  /\ gt_frame_counter_ (fst (fst r)) = gt_frame_counter_ ev
  /\ evaluated_levels_ (fst (fst r)) = evaluated_levels_ ev
  /\ file_content (snd r) (scores_path ev)
     = file_content w (scores_path ev)
       ++ fst (fst (scores_row ev cloud (log w)))
  /\ forall q, scores_path ev <> q -> ranges_path ev <> q ->
               files (fs (snd r)) !! q = files (fs w) !! q.
Proof.
  unfold writeScoresToFile.
  destruct (scores_row ev cloud (log w)) as [[row cloud'] lg].
  cbn [fst snd].
  set (w1 := mkWorld _ lg).
  assert (H1 : file_content w1 (scores_path ev)
               = file_content w (scores_path ev) ++ row).
  { unfold file_content, w1, write_app, scores_path. simpl.
    now rewrite lookup_insert_eq. }
  assert (H2 : forall q, scores_path ev <> q ->
                         files (fs w1) !! q = files (fs w) !! q).
  { intros q Hq. unfold w1, write_app. simpl.
    now rewrite lookup_insert_ne. }
  destruct (evaluate_ranges (config_ ev)).
  - pose proof (evaluateRanges_frame ev cloud' w1) as E.
    destruct (evaluateRanges ev cloud' w1) as [ev2 w2].
    cbn [fst snd] in *.
    destruct E as (E1 & E2 & E3 & E4 & _ & _ & E7).
    repeat split; auto.
    + unfold file_content. rewrite E7 by apply scores_ne_ranges. exact H1.
    + intros q Hs Hr. rewrite E7 by exact Hr. now apply H2.
  - cbn [fst snd]. repeat split; auto.
Qed.

(** ** Frames *)

Section FrameProperties.
Variable GroundTruthHandler : Type.
Variable labelCloudInfoIfAvailable :
  GroundTruthHandler -> CloudInfo -> bool * CloudInfo * GroundTruthHandler.

Local Abbreviation evaluateFrame' :=
  (evaluateFrame GroundTruthHandler labelCloudInfoIfAvailable).
Local Abbreviation evaluateFrames' :=
  (evaluateFrames GroundTruthHandler labelCloudInfoIfAvailable).
Local Abbreviation labelled_frames' :=
  (labelled_frames GroundTruthHandler labelCloudInfoIfAvailable).

(** A frame without ground truth: the timings are rewritten and that is
    all. *)
Lemma evaluateFrame_unavailable report ev h w cloud cloud1 h1 :
  labelCloudInfoIfAvailable h cloud = (false, cloud1, h1) ->
  evaluateFrame' report (ev, h, w) cloud
  = (ev, h1, writeTimingsToFile ev report w, cloud1).
Proof.
  intros Hl. unfold evaluateFrame. now rewrite Hl.
Qed.

(** A frame with ground truth. *)
Lemma evaluateFrame_available report ev h w cloud cloud1 h1 :
  labelCloudInfoIfAvailable h cloud = (true, cloud1, h1) ->
  let r := evaluateFrame' report (ev, h, w) cloud in
  let ev' := fst (fst (fst r)) in
  let w' := snd (fst r) in
  config_ ev' = config_ ev
  /\ output_directory_ ev' = output_directory_ ev
  /\ evaluated_levels_ ev' = evaluated_levels_ ev
  /\ gt_frame_counter_ ev' = gt_frame_counter_ ev + 1
  /\ snd (fst (fst r)) = h1
  /\ file_content w' (scores_path ev)
     = file_content w (scores_path ev)
       ++ fst (fst (scores_row ev cloud1 (log w)))
  /\ file_content w' (timings_path ev) = [TStr report; TEndl].
Proof.
  intros Hl. unfold evaluateFrame. rewrite Hl.
  pose proof (writeScoresToFile_effect ev cloud1
                (writeTimingsToFile ev report w)) as E.
  destruct (writeScoresToFile ev cloud1 (writeTimingsToFile ev report w))
    as [[ev2 cloud2] w2].
  cbn [fst snd] in *. destruct E as (E1 & E2 & E3 & E4 & E5 & E6).
  repeat split; auto; try (simpl; congruence).
  - unfold LOG, file_content in *. cbn [fs]. rewrite E5.
    unfold writeTimingsToFile at 1.
    now rewrite lookup_write_trunc_ne by apply scores_ne_timings.
  - unfold LOG, file_content. cbn [fs].
    rewrite E6 by (auto using scores_ne_timings, ranges_ne_timings
                   || (intros X; symmetry in X; revert X;
                       auto using scores_ne_timings, ranges_ne_timings)).
    unfold writeTimingsToFile. apply file_content_write_trunc_eq.
Qed.

Lemma evaluateFrame_output_directory report ev h w cloud :
  output_directory_ (fst (fst (fst (evaluateFrame' report (ev, h, w) cloud))))
  = output_directory_ ev.
Proof.
  destruct (labelCloudInfoIfAvailable h cloud) as [[[|] cloud1] h1] eqn:Hl.
  - now destruct (evaluateFrame_available report ev h w cloud cloud1 h1 Hl)
      as (_ & ? & _).
  - now rewrite (evaluateFrame_unavailable report ev h w cloud cloud1 h1 Hl).
Qed.

Lemma evaluateFrame_scores_lines report ev h w cloud :
  let r := evaluateFrame' report (ev, h, w) cloud in
  line_ends (file_content (snd (fst r)) (scores_path ev))
  = line_ends (file_content w (scores_path ev))
    + (if fst (fst (labelCloudInfoIfAvailable h cloud)) then 1 else 0)
  /\ gt_frame_counter_ (fst (fst (fst r)))
     = gt_frame_counter_ ev
       + (if fst (fst (labelCloudInfoIfAvailable h cloud)) then 1 else 0)
  /\ snd (fst (fst r)) = snd (labelCloudInfoIfAvailable h cloud).
Proof.
  destruct (labelCloudInfoIfAvailable h cloud) as [[[|] cloud1] h1] eqn:Hl.
  - destruct (evaluateFrame_available report ev h w cloud cloud1 h1 Hl)
      as (_ & _ & _ & Hc & Hh & Hs & _).
    cbn zeta. cbn [fst snd]. rewrite Hs, line_ends_app, scores_row_line_ends.
    auto.
  - cbn zeta.
    rewrite (evaluateFrame_unavailable report ev h w cloud cloud1 h1 Hl).
    cbn [fst snd]. unfold file_content, writeTimingsToFile.
    rewrite lookup_write_trunc_ne by apply scores_ne_timings.
    repeat split; lia.
Qed.

Lemma evaluateFrames_scores_lines frames ev h w :
  let st := evaluateFrames' (ev, h, w) frames in
  line_ends (file_content (snd st) (scores_path ev))
  = line_ends (file_content w (scores_path ev)) + labelled_frames' h frames
  /\ gt_frame_counter_ (fst (fst st))
     = gt_frame_counter_ ev + labelled_frames' h frames.
Proof.
  revert ev h w. induction frames as [|[report cloud] frames IH];
    intros ev h w.
  - simpl. lia.
  - cbn zeta. cbn [evaluateFrames labelled_frames].
    pose proof (evaluateFrame_scores_lines report ev h w cloud) as E.
    pose proof (evaluateFrame_output_directory report ev h w cloud) as D.
    destruct (evaluateFrame' report (ev, h, w) cloud)
      as [[[ev1 h1] w1] cloud1].
    cbn zeta in E. cbn [fst snd] in E, D.
    destruct E as (E1 & E2 & E3).
    specialize (IH ev1 h1 w1). cbn zeta in IH.
    assert (P : scores_path ev1 = scores_path ev)
      by (unfold scores_path; now rewrite D).
    rewrite P in IH. destruct IH as [IH1 IH2].
    destruct (labelCloudInfoIfAvailable h cloud) as [[b c2] h2].
    cbn [fst snd] in *. subst h2.
    rewrite IH1, IH2, E1, E2. lia.
Qed.

End FrameProperties.

Lemma header_line_ends now cfg w0 ev w :
  Evaluator_new now cfg w0 = Some (ev, w) ->
  line_ends (file_content w (scores_path ev)) = 1.
Proof.
  intros Hnew.
  destruct (Evaluator_new_Some now cfg w0 ev w Hnew)
    as (_ & _ & Hdir & _ & Hlevels & _ & _ & Hfiles & _).
  unfold file_content, scores_path. rewrite Hfiles, Hdir, lookup_insert_eq.
  rewrite Hlevels.
  destruct (evaluate_point_level cfg), (evaluate_cluster_level cfg),
    (evaluate_object_level cfg); reflexivity.
Qed.

(** C7: every call rewrites the timings file with the report of the call.
    When the handler has no ground truth for the frame the call ends there:
    the evaluator is as before and the world differs by the timings file
    only. When it has, the scores file grows by one row, which holds one
    line end, at its end. So over a run the number of lines of the scores
    file grows by the number of frames with ground truth, and for an
    evaluator that its constructor returned, after the header written at
    construction, it is one more than that number. *)
Theorem scores_rows_count_labelled_frames
    (H : Type) (label : H -> CloudInfo -> bool * CloudInfo * H) :
  (forall report ev h w cloud,
     let r := evaluateFrame H label report (ev, h, w) cloud in
     file_content (snd (fst r)) (timings_path ev) = [TStr report; TEndl]
     /\ match label h cloud with
        | (true, cloud1, h1) =>
            file_content (snd (fst r)) (scores_path ev)
            = file_content w (scores_path ev)
              ++ fst (fst (scores_row ev cloud1 (log w)))
            /\ line_ends (fst (fst (scores_row ev cloud1 (log w)))) = 1
            /\ last (fst (fst (scores_row ev cloud1 (log w)))) = Some TEndl
        | (false, cloud1, h1) =>
            r = (ev, h1, writeTimingsToFile ev report w, cloud1)
        end)
  /\ (forall frames ev h w,
        line_ends
          (file_content (snd (evaluateFrames H label (ev, h, w) frames))
             (scores_path ev))
        = line_ends (file_content w (scores_path ev))
          + labelled_frames H label h frames)
  /\ (forall now cfg w0 ev w h frames,
        Evaluator_new now cfg w0 = Some (ev, w) ->
        line_ends
          (file_content (snd (evaluateFrames H label (ev, h, w) frames))
             (scores_path ev))
        = 1 + labelled_frames H label h frames).
Proof.
  split; [|split].
  - intros report ev h w cloud. cbn zeta.
    destruct (label h cloud) as [[[|] cloud1] h1] eqn:Hl.
    + destruct (evaluateFrame_available H label report ev h w cloud cloud1 h1 Hl)
        as (_ & _ & _ & _ & _ & Hs & Ht).
      split; [exact Ht|]. split; [exact Hs|].
      split; [apply scores_row_line_ends | apply scores_row_last].
    + rewrite (evaluateFrame_unavailable H label report ev h w cloud cloud1 h1 Hl).
      split; [|reflexivity]. cbn [fst snd].
      apply file_content_write_trunc_eq.
  - intros frames ev h w.
    apply (evaluateFrames_scores_lines H label frames ev h w).
  - intros now cfg w0 ev w h frames Hnew.
    rewrite (proj1 (evaluateFrames_scores_lines H label frames ev h w)).
    now rewrite (header_line_ends now cfg w0 ev w Hnew).
Qed.

(** C10: when the handler reports that no ground truth is available, the
    call leaves the evaluator as it was, with its frame counter and its
    four buckets, and leaves every file but the timings file, the
    directories and the log as they were, the scores file and the ranges
    file among them; when labelling succeeds the frame counter grows by
    one. *)
Theorem unlabelled_frame_changes_timings_only
    (H : Type) (label : H -> CloudInfo -> bool * CloudInfo * H)
    report ev h w cloud :
  let r := evaluateFrame H label report (ev, h, w) cloud in
  let ev' := fst (fst (fst r)) in
  let w' := snd (fst r) in
  match label h cloud with
  | (false, cloud1, h1) =>
      ev' = ev
      /\ gt_frame_counter_ ev' = gt_frame_counter_ ev
      /\ ranges_ ev' = ranges_ ev
      /\ files (fs w') !! scores_path ev = files (fs w) !! scores_path ev
      /\ files (fs w') !! ranges_path ev = files (fs w) !! ranges_path ev
      /\ delete (timings_path ev) (files (fs w'))
         = delete (timings_path ev) (files (fs w))
      /\ dirs (fs w') = dirs (fs w)
      /\ log w' = log w
  | (true, cloud1, h1) =>
      gt_frame_counter_ ev' = gt_frame_counter_ ev + 1
  end.
Proof.
  cbn zeta.
  destruct (label h cloud) as [[[|] cloud1] h1] eqn:Hl.
  - now destruct (evaluateFrame_available H label report ev h w cloud cloud1 h1 Hl)
      as (_ & _ & _ & Hc & _).
  - rewrite (evaluateFrame_unavailable H label report ev h w cloud cloud1 h1 Hl).
    cbn [fst snd]. unfold writeTimingsToFile.
    rewrite !lookup_write_trunc_ne
      by (apply scores_ne_timings || apply ranges_ne_timings).
    repeat split.
    unfold with_fs, write_trunc. simpl. apply delete_insert_eq.
Qed.

(** A run of three frames of which the first and the third have ground
    truth: the scores file ends with the header and two rows, and the
    counter of evaluated frames is 2. *)
Example three_frames_two_rows :
  match Evaluator_new noon window_0_10 empty_world with
  | Some (ev, w) =>
      let st := evaluateFrames unit even_handler (ev, tt, w) three_frames in
      line_ends (file_content (snd st) "out/scores.csv") = 3
      /\ gt_frame_counter_ (fst (fst st)) = 2
      /\ file_content (snd st) "out/timings.txt" = [TStr "t2"; TEndl]
  | None => False
  end.
Proof. vm_compute. repeat split. Qed.

(** ** Set-up of the output directory *)


Lemma decimal_four_digits y :
  1000 <= y <= 9999 ->
  decimal y
  = String (digit (y / 10 / 10 / 10))
      (String (digit (y / 10 / 10)) (String (digit (y / 10))
         (String (digit y) ""))).
Proof.
  intros Hy. unfold decimal.
  assert (Hf : exists k, (Z.to_nat y + 1 = S (S (S (S k))))%nat)
    by (exists (Z.to_nat y - 3)%nat; lia).
  destruct Hf as [k ->]. cbn [decimal_from].
  assert (H1 : (y / 10 =? 0) = false) by (apply Z.eqb_neq; Z.div_mod_to_equations; lia).
  assert (H2 : (y / 10 / 10 =? 0) = false) by (apply Z.eqb_neq; Z.div_mod_to_equations; lia).
  assert (H3 : (y / 10 / 10 / 10 =? 0) = false) by (apply Z.eqb_neq; Z.div_mod_to_equations; lia).
  assert (H4 : (y / 10 / 10 / 10 / 10 =? 0) = true) by (apply Z.eqb_eq; Z.div_mod_to_equations; lia).
  now rewrite H1, H2, H3, H4.
Qed.


Lemma append_cons c (a b : string) :
  (String c a ++ b)%string = String c (a ++ b)%string.
Proof. reflexivity. Qed.

Lemma append_nil_r (s : string) : (s ++ "")%string = s.
Proof.
  induction s as [|c s IH]; [reflexivity|].
  now rewrite append_cons, IH.
Qed.

Lemma append_assoc (a b c : string) :
  ((a ++ b) ++ c)%string = (a ++ b ++ c)%string.
Proof.
  induction a as [|x a IH]; [reflexivity|].
  now rewrite !append_cons, IH.
Qed.

Lemma In_ancestors_from acc s : In (acc ++ s)%string (ancestors_from acc s).
Proof.
  revert acc. induction s as [|c s IH]; intros acc.
  - rewrite append_nil_r. now left.
  - simpl. destruct (Ascii.eqb c "/") eqn:Hc.
    + apply Ascii.eqb_eq in Hc. subst c.
      apply in_or_app. right.
      specialize (IH (acc ++ "/")%string). now rewrite append_assoc in IH.
    + specialize (IH (acc ++ String c "")%string).
      now rewrite append_assoc in IH.
Qed.

Lemma create_directories_has p f made :
  create_directories p f = Some made -> p ∈ dirs made.
Proof.
  unfold create_directories. destruct (blocked p f); [discriminate|].
  intros [= <-]. simpl. apply elem_of_union. right.
  apply elem_of_list_to_set, list_elem_of_In.
  exact (In_ancestors_from "" p).
Qed.




Lemma has_slash_app a b : has_slash (a ++ b) = has_slash a || has_slash b.
Proof.
  induction a as [|c a IH]; [reflexivity|].
  rewrite append_cons. simpl. now rewrite IH, orb_assoc.
Qed.


(** A directory exists under each of its spellings, an entry below a
    regular file or behind a missing directory does not, and the empty path
    names nothing. *)
Example exists_resolves_the_path :
  fs_exists "out/" (fs world_with_older_run) = true
  /\ fs_exists "./out//" (fs world_with_older_run) = true
  /\ fs_exists "out/2026_10_30-12_00_00/../../out" (fs world_with_older_run)
     = true
  /\ fs_exists "out/2026_10_30-12_00_00/scores.csv"
       (fs world_with_older_run) = true
  /\ fs_exists "out/scores.csv" (fs world_with_older_run) = false
  /\ fs_exists "missing/../out" (fs world_with_older_run) = false
  /\ fs_exists "out" (fs world_with_regular_file) = true
  /\ fs_exists "out/" (fs world_with_regular_file) = false
  /\ fs_exists "out/scores.csv" (fs world_with_regular_file) = false
  /\ fs_exists "" (fs world_with_older_run) = false.
Proof. vm_compute. repeat split. Qed.

(** When [out] is a regular file the set-up throws: no evaluator is
    built. *)
Example regular_file_blocks_construction :
  fs_exists "out" (fs world_with_regular_file) = true
  /\ Evaluator_new noon window_0_10 world_with_regular_file = None.
Proof. split; vm_compute; reflexivity. Qed.

Lemma path_in_timestamped_ne dir ts name :
  has_slash name = false ->
  path_in (dir ++ "/" ++ ts) scores_file_name_ <> path_in dir name.
Proof.
  intros Hname Heq. unfold path_in in Heq.
  rewrite !append_assoc in Heq.
  apply append_cancel_l in Heq. apply (append_cancel_l "/") in Heq.
  subst name. rewrite !has_slash_app in Hname. simpl in Hname.
  now rewrite orb_true_r in Hname.
Qed.



(** * Further properties *)

(** ** The range filter, again *)

Lemma within_range_set_ready cfg b p :
  within_range cfg (set_ready_for_evaluation b p) = within_range cfg p.
Proof. reflexivity. Qed.

Lemma set_ready_twice b p :
  set_ready_for_evaluation b (set_ready_for_evaluation b p)
  = set_ready_for_evaluation b p.
Proof. reflexivity. Qed.

Lemma filter_loop_again cfg n m pts :
  filter_loop cfg n (snd (filter_loop cfg m pts))
  = (fst (filter_loop cfg n pts), snd (filter_loop cfg m pts)).
Proof.
  revert n m. induction pts as [|p pts IH]; intros n m; [reflexivity|].
  cbn [filter_loop]. destruct (within_range cfg p) eqn:Hw.
  - specialize (IH (Int.incr n) (Int.incr m)).
    destruct (filter_loop cfg (Int.incr m) pts) as [m' pts'].
    destruct (filter_loop cfg (Int.incr n) pts) as [n' pts''].
    cbn [fst snd filter_loop] in *.
    rewrite within_range_set_ready, Hw, IH. reflexivity.
  - specialize (IH n m).
    destruct (filter_loop cfg m pts) as [m' pts'].
    destruct (filter_loop cfg n pts) as [n' pts''].
    cbn [fst snd filter_loop] in *.
    rewrite Hw, IH. reflexivity.
Qed.

(** X1: filtering a cloud that has been filtered with the same window
    changes nothing and returns the same count. *)
Theorem filterEvaluatedPoints_idempotent cfg cloud :
  filterEvaluatedPoints cfg (snd (filterEvaluatedPoints cfg cloud))
  = filterEvaluatedPoints cfg cloud.
Proof.
  unfold filterEvaluatedPoints.
  pose proof (filter_loop_again cfg 0 0 (points cloud)) as H.
  destruct (filter_loop cfg 0 (points cloud)) as [n pts].
  cbn [fst snd points timestamp] in *. now rewrite H.
Qed.

Lemma SFcompare_nan_l y : SFcompare S754_nan y = None.
Proof. reflexivity. Qed.

Lemma SFcompare_nan_r x : SFcompare x S754_nan = None.
Proof. now destruct x. Qed.

Lemma is_nan_eq x : is_nan x = true -> x = S754_nan.
Proof. now destruct x. Qed.

Lemma nan_involved_not_within cfg p :
  nan_involved cfg p = true -> within_range cfg p = false.
Proof.
  unfold nan_involved, within_range, Float32.geb, Float32.leb.
  intros H. apply orb_true_iff in H as [H | H];
    [apply orb_true_iff in H as [H | H]|]; apply is_nan_eq in H; rewrite H.
  - reflexivity.
  - now rewrite SFcompare_nan_r.
  - rewrite SFcompare_nan_r. apply andb_false_r.
Qed.

Lemma filter_loop_none cfg n pts :
  Forall (fun p => within_range cfg p = false) pts ->
  filter_loop cfg n pts = (n, pts).
Proof.
  induction 1 as [|p pts Hp _ IH]; [reflexivity|].
  cbn [filter_loop]. now rewrite Hp, IH.
Qed.

(** X2: comparisons with a NaN are false, so a point whose distance is a
    NaN, or any point when a bound of the window is a NaN, is not marked by
    the filter: on a cloud of such points the filter returns 0 and leaves
    the cloud as it is. *)
Theorem filter_ignores_nan cfg cloud :
  Forall (fun p => nan_involved cfg p = true) (points cloud) ->
  filterEvaluatedPoints cfg cloud = (0, cloud).
Proof.
  intros H. unfold filterEvaluatedPoints.
  rewrite filter_loop_none.
  - now destruct cloud.
  - eapply Forall_impl; [exact H|]. intros p. apply nan_involved_not_within.
Qed.

Lemma filter_ignores_nan_witness :
  Forall (fun p => nan_involved window_0_10 p = true)
    (points (mkCloudInfo 1
               [mkPointInfo S754_nan false true true true true]))
  /\ filterEvaluatedPoints window_0_10
       (mkCloudInfo 1 [mkPointInfo S754_nan false true true true true])
     = (0, mkCloudInfo 1 [mkPointInfo S754_nan false true true true true]).
Proof.
  assert (H : Forall (fun p => nan_involved window_0_10 p = true)
                (points (mkCloudInfo 1
                           [mkPointInfo S754_nan false true true true true])))
    by (repeat constructor).
  split; [exact H|]. exact (filter_ignores_nan _ _ H).
Defined.

Lemma count_if_le {A} (f g : A -> bool) l :
  (forall x, f x = true -> g x = true) -> count_if f l <= count_if g l.
Proof.
  intros H. induction l as [|x l IH]; [reflexivity|].
  rewrite !count_if_cons. specialize (H x).
  destruct (f x), (g x); first [lia | discriminate (H eq_refl)].
Qed.

(** X3: for a cloud of at most [Int.max] points the count that the filter
    returns, which is written as EvaluatedPoints, lies between 0 and the
    number of points, written as TotalPoints, and does not exceed the
    number of points that are flagged after the call. *)
Theorem evaluated_points_at_most_total cfg cloud :
  Z.of_nat (length (points cloud)) <= Int.max ->
  0 <= fst (filterEvaluatedPoints cfg cloud)
  /\ fst (filterEvaluatedPoints cfg cloud) <= Z.of_nat (length (points cloud))
  /\ fst (filterEvaluatedPoints cfg cloud)
     <= count_if ready_for_evaluation
          (points (snd (filterEvaluatedPoints cfg cloud))).
Proof.
  intros Hlen. rewrite filterEvaluatedPoints_count by exact Hlen.
  pose proof (count_if_bounds (within_range cfg) (points cloud)).
  split; [lia|]. split; [lia|].
  rewrite count_ready_filtered. apply count_if_le.
  intros p Hp. unfold eligible_after. now rewrite Hp, orb_true_r.
Qed.

Lemma evaluated_points_at_most_total_witness :
  Z.of_nat (length (points far_flagged_cloud)) <= Int.max
  /\ fst (filterEvaluatedPoints window_0_10 far_flagged_cloud)
     <= Z.of_nat (length (points far_flagged_cloud)).
Proof.
  assert (H : Z.of_nat (length (points far_flagged_cloud)) <= Int.max)
    by (vm_compute; discriminate).
  split; [exact H|].
  exact (proj1 (proj2 (evaluated_points_at_most_total window_0_10
                         far_flagged_cloud H))).
Defined.

(** ** The confusion matrix, again *)

Lemma Counters_eq c1 c2 :
  (forall o, counter_of o c1 = counter_of o c2) -> c1 = c2.
Proof.
  intros H. destruct c1 as [a1 b1 d1 e1], c2 as [a2 b2 d2 e2].
  pose proof (H TruePositive). pose proof (H FalsePositive).
  pose proof (H TrueNegative). pose proof (H FalseNegative).
  simpl in *. congruence.
Qed.

Lemma count_if_Permutation {A} (f : A -> bool) l1 l2 :
  Permutation l1 l2 -> count_if f l1 = count_if f l2.
Proof.
  induction 1 as [|x l1 l2 _ IH|x y l|l1 l2 l3 _ IH1 _ IH2].
  - reflexivity.
  - now rewrite !count_if_cons, IH.
  - rewrite !count_if_cons. lia.
  - congruence.
Qed.

(** X4: the confusion matrix does not depend on the order of the points:
    two clouds whose points are permutations of each other have the same
    four counters at every level. *)
Theorem confusion_matrix_ignores_order check cloud1 cloud2 :
  Permutation (points cloud1) (points cloud2) ->
  count_cloud check cloud1 = count_cloud check cloud2.
Proof.
  intros Hperm. apply Counters_eq. intros o.
  rewrite !count_cloud_counter.
  now rewrite (count_if_Permutation _ _ _ Hperm).
Qed.

Lemma confusion_matrix_ignores_order_witness :
  Permutation (points three_points_cloud) (rev (points three_points_cloud))
  /\ count_cloud cluster_level_dynamic three_points_cloud
     = count_cloud cluster_level_dynamic
         (mkCloudInfo 0 (rev (points three_points_cloud))).
Proof.
  assert (H : Permutation (points three_points_cloud)
                (rev (points three_points_cloud)))
    by apply Permutation_rev.
  split; [exact H|].
  exact (confusion_matrix_ignores_order cluster_level_dynamic
           three_points_cloud
           (mkCloudInfo 0 (rev (points three_points_cloud))) H).
Defined.

Lemma count_if_filter_ready check o pts :
  count_if (has_outcome check o) (List.filter ready_for_evaluation pts)
  = count_if (has_outcome check o) pts.
Proof.
  induction pts as [|p pts IH]; [reflexivity|].
  simpl List.filter. rewrite (count_if_cons _ p pts).
  destruct (ready_for_evaluation p) eqn:Hr.
  - now rewrite count_if_cons, IH.
  - rewrite IH. unfold has_outcome at 2. rewrite Hr. simpl. lia.
Qed.

(** X5: points that are not flagged for evaluation are skipped: the matrix
    of a cloud is the matrix of its flagged points alone; and for a cloud of
    fewer than [2^32] points the four counters add up to the number of
    flagged points. *)
Theorem confusion_matrix_counts_flagged_points check cloud :
  Z.of_nat (length (points cloud)) < UInt.modulus ->
  count_cloud check cloud = count_cloud check (flagged_only cloud)
  /\ total (count_cloud check cloud)
     = count_if ready_for_evaluation (points cloud).
Proof.
  intros Hlen. split; [|now apply count_cloud_total].
  apply Counters_eq. intros o. rewrite !count_cloud_counter.
  unfold flagged_only. cbn [points].
  now rewrite count_if_filter_ready.
Qed.

Lemma confusion_matrix_counts_flagged_points_witness :
  Z.of_nat (length (points far_flagged_cloud)) < UInt.modulus
  /\ total (count_cloud cluster_level_dynamic far_flagged_cloud)
     = count_if ready_for_evaluation (points far_flagged_cloud).
Proof.
  assert (H : Z.of_nat (length (points far_flagged_cloud)) < UInt.modulus)
    by (vm_compute; reflexivity).
  split; [exact H|].
  exact (proj2 (confusion_matrix_counts_flagged_points cluster_level_dynamic
                  far_flagged_cloud H)).
Defined.

(** X6: a level is judged on its own prediction, the ground truth and the
    flag only: changing anything else of the points, such as the distances
    or the predictions of the other levels, leaves the columns of the level
    as they are. *)
Theorem level_columns_depend_on_own_prediction level check g cloud :
  check_level_of level = Some check ->
  (forall p, ready_for_evaluation (g p) = ready_for_evaluation p
             /\ ground_truth_dynamic (g p) = ground_truth_dynamic p
             /\ check (g p) = check p) ->
  columns_of_level (mkCloudInfo (timestamp cloud) (map g (points cloud))) level
  = columns_of_level cloud level.
Proof.
  intros Hlevel Hg. unfold columns_of_level. rewrite Hlevel. f_equal.
  apply Counters_eq. intros o. rewrite !count_cloud_counter. cbn [points].
  rewrite count_if_map. f_equal. apply count_if_ext_in.
  apply Forall_forall. intros p _. unfold has_outcome.
  destruct (Hg p) as (-> & -> & ->). reflexivity.
Qed.

Lemma level_columns_depend_on_own_prediction_witness :
  columns_of_level
    (mkCloudInfo (timestamp three_points_cloud)
       (map (fun p =>
               mkPointInfo (Float32.of_Z 7) (ready_for_evaluation p)
                 (ground_truth_dynamic p) true (cluster_level_dynamic p) true)
          (points three_points_cloud)))
    "cluster"
  = columns_of_level three_points_cloud "cluster".
Proof.
  apply (level_columns_depend_on_own_prediction "cluster"
           cluster_level_dynamic); [reflexivity|].
  intros p. repeat split.
Defined.

Lemma count_if_none {A} (f : A -> bool) l :
  Forall (fun x => f x = false) l -> count_if f l = 0.
Proof.
  induction 1 as [|x l Hx _ IH]; [reflexivity|].
  now rewrite count_if_cons, Hx, IH.
Qed.

(** X7: when no point of the cloud is flagged for evaluation, an empty
    cloud included, a known level writes the metrics 1, 1, 1 and the
    counters 0, 0, 0, 0 and nothing is reported. *)
Theorem no_flagged_point_gives_vacuous_columns cloud level check out lg :
  check_level_of level = Some check ->
  Forall (fun p => ready_for_evaluation p = false) (points cloud) ->
  evaluateCloudAtLevel cloud level out lg = (out ++ vacuous_columns, lg).
Proof.
  intros Hlevel Hnone. unfold evaluateCloudAtLevel. rewrite Hlevel.
  assert (Hc : count_cloud check cloud = mkCounters 0 0 0 0).
  { apply Counters_eq. intros o. rewrite count_cloud_counter.
    rewrite count_if_none; [now destruct o|].
    eapply Forall_impl; [exact Hnone|]. intros p Hp.
    unfold has_outcome. now rewrite Hp. }
  now rewrite Hc.
Qed.

Lemma no_flagged_point_gives_vacuous_columns_witness :
  check_level_of "point" = Some ever_free_level_dynamic
  /\ Forall (fun p => ready_for_evaluation p = false)
       (points three_points_cloud)
  /\ evaluateCloudAtLevel three_points_cloud "point" [] []
     = ([] ++ vacuous_columns, []).
Proof.
  assert (H : Forall (fun p => ready_for_evaluation p = false)
                (points three_points_cloud)) by (repeat constructor).
  split; [reflexivity|]. split; [exact H|].
  exact (no_flagged_point_gives_vacuous_columns three_points_cloud "point"
           ever_free_level_dynamic [] [] eq_refl H).
Defined.

(** X8: the matrix of the cluster level and the range buckets agree: for a
    cloud of fewer than [2^32] points and four buckets, the counter of each
    outcome is the number of distances that [evaluateRanges] adds to the
    bucket of that outcome. *)
Theorem cluster_counters_match_bucket_growth ranges cloud o :
  length ranges = 4%nat ->
  Z.of_nat (length (points cloud)) < UInt.modulus ->
  Z.of_nat (length (bucket_at (collect_ranges ranges cloud) (bucket_index o)))
  = Z.of_nat (length (bucket_at ranges (bucket_index o)))
    + counter_of o (count_cloud cluster_level_dynamic cloud).
Proof.
  intros Hlen Hpts.
  rewrite collect_ranges_bucket by exact Hlen.
  rewrite length_app, length_map, Nat2Z.inj_add, count_cloud_counter.
  fold (count_if (has_outcome cluster_level_dynamic o) (points cloud)).
  pose proof (count_if_bounds (has_outcome cluster_level_dynamic o)
                (points cloud)).
  unfold UInt.wrap. rewrite Z.mod_small by lia. reflexivity.
Qed.

Lemma cluster_counters_match_bucket_growth_witness :
  length empty_ranges = 4%nat
  /\ Z.of_nat (length (points true_negative_cloud)) < UInt.modulus
  /\ Z.of_nat
       (length (bucket_at (collect_ranges empty_ranges true_negative_cloud)
                  (bucket_index TrueNegative)))
     = Z.of_nat (length (bucket_at empty_ranges (bucket_index TrueNegative)))
       + counter_of TrueNegative
           (count_cloud cluster_level_dynamic true_negative_cloud).
Proof.
  assert (H : Z.of_nat (length (points true_negative_cloud)) < UInt.modulus)
    by (vm_compute; reflexivity).
  split; [reflexivity|]. split; [exact H|].
  exact (cluster_counters_match_bucket_growth empty_ranges true_negative_cloud
           TrueNegative eq_refl H).
Defined.

(** ** The range buckets, again *)

Lemma line_ends_range_values bucket : line_ends (range_values bucket) = 0.
Proof.
  induction bucket as [|d bucket IH]; [reflexivity|].
  change (range_values (d :: bucket))
    with ([TStr ","; TFloat d] ++ range_values bucket).
  now rewrite line_ends_app, IH.
Qed.

(** X9: [evaluateRanges] keeps the number of buckets, only appends to
    them, so that what a bucket held before the call is a prefix of what it
    holds after, and writes a ranges file of four lines whatever the
    buckets hold. *)
Theorem evaluateRanges_appends ev cloud w :
  length (ranges_ ev) = 4%nat ->
  length (ranges_ (fst (evaluateRanges ev cloud w))) = 4%nat
  /\ (forall o,
        bucket_at (ranges_ ev) (bucket_index o)
        `prefix_of`
        bucket_at (ranges_ (fst (evaluateRanges ev cloud w))) (bucket_index o))
  /\ line_ends (file_content (snd (evaluateRanges ev cloud w)) (ranges_path ev))
     = 4.
Proof.
  intros Hlen. unfold evaluateRanges. cbn [fst snd ranges_].
  split; [now rewrite length_collect_ranges|]. split.
  - intros o. rewrite collect_ranges_bucket by exact Hlen.
    now apply prefix_app_r.
  - unfold ranges_path. rewrite file_content_write_trunc_eq.
    unfold ranges_file_content.
    rewrite !line_ends_app, !line_ends_range_values. reflexivity.
Qed.

Lemma evaluateRanges_appends_witness :
  length (ranges_ ranges_evaluator) = 4%nat
  /\ length (ranges_ (fst (evaluateRanges ranges_evaluator true_negative_cloud
                             empty_world))) = 4%nat.
Proof.
  split; [reflexivity|].
  exact (proj1 (evaluateRanges_appends ranges_evaluator true_negative_cloud
                  empty_world eq_refl)).
Defined.

(** ** Metrics, again *)

Lemma of_Z_normal n :
  0 < n < 2 ^ 32 ->
  exists p e,
    Float32.of_Z n = S754_finite false p e
    /\ 2 ^ 23 <= Z.pos p < 2 ^ 24 /\ -23 <= e <= 9
    /\ (Z.pos p, e) = nearest_parts n.
Proof.
  intros Hn. pose proof (nearest_parts_shape n Hn) as S.
  pose proof (Zdigits2_uint n Hn) as D.
  rewrite (of_Z_nearest n Hn).
  destruct (nearest_parts n) as [m e]. cbn [fst snd] in *.
  assert (Hm : 2 ^ 23 <= m < 2 ^ 24) by lia.
  destruct m as [|p|p]; try lia.
  exists p, e. cbn [Z.to_pos]. repeat split; lia.
Qed.

(** A positive 32-bit integer divided by itself is exactly 1. *)
Lemma div_of_Z_self n :
  0 < n < 2 ^ 32 ->
  Float32.div (Float32.of_Z n) (Float32.of_Z n) = Float32.one.
Proof.
  intros Hn. destruct (of_Z_normal n Hn) as (p & e & -> & Hp & He & _).
  rewrite div_finite by lia.
  rewrite (Z.mul_comm (Z.pos p)), Z.div_mul, Z.mod_mul by lia.
  replace (e - e - 24) with (-24) by lia.
  replace (new_location (Z.pos p) 0) with loc_Exact
    by (unfold new_location; destruct (Z.even (Z.pos p)); reflexivity).
  reflexivity.
Qed.

(** Zero divided by a positive 32-bit integer is exactly 0. *)
Lemma div_zero_of_Z n :
  0 < n < 2 ^ 32 ->
  Float32.div (Float32.of_Z 0) (Float32.of_Z n) = Float32.zero.
Proof.
  intros Hn. destruct (of_Z_normal n Hn) as (p & e & -> & _).
  reflexivity.
Qed.

(** X10: the metrics are exact at the ends of the scale. Without false
    positives and with at least one true positive the precision is exactly
    1, without false negatives the recall is exactly 1, without both the
    intersection over union is exactly 1; without true positives and with a
    denominator that is not 0 (and below [2^32]) each metric is exactly
    0. *)
Theorem metrics_exact_at_the_ends tp fp fn :
  UInt.in_range tp -> UInt.in_range fp -> UInt.in_range fn -> 0 < tp ->
  computePrecision tp 0 = Float32.one
  /\ computeRecall tp 0 = Float32.one
  /\ computeIntersectionOverUnion tp 0 0 = Float32.one
  /\ (0 < fp -> computePrecision 0 fp = Float32.zero)
  /\ (0 < fn -> computeRecall 0 fn = Float32.zero)
  /\ (0 < fp + fn < UInt.modulus ->
      computeIntersectionOverUnion 0 fp fn = Float32.zero).
Proof.
  unfold UInt.in_range, UInt.modulus. intros Htp Hfp Hfn Hpos.
  assert (H0 : UInt.in_range 0) by (unfold UInt.in_range, UInt.modulus; lia).
  assert (one_case : forall d,
            0 < d < 2 ^ 32 ->
            (if d =? 0 then Float32.one
             else Float32.div (Float32.of_Z d) (Float32.of_Z d))
            = Float32.one).
  { intros d Hd. replace (d =? 0) with false
      by (symmetry; apply Z.eqb_neq; lia).
    now apply div_of_Z_self. }
  assert (zero_case : forall d,
            0 < d < 2 ^ 32 ->
            (if d =? 0 then Float32.one
             else Float32.div (Float32.of_Z 0) (Float32.of_Z d))
            = Float32.zero).
  { intros d Hd. replace (d =? 0) with false
      by (symmetry; apply Z.eqb_neq; lia).
    now apply div_zero_of_Z. }
  split; [|split; [|split; [|split; [|split]]]].
  - rewrite computePrecision_no_wrap
      by (unfold UInt.in_range, UInt.modulus; lia).
    rewrite Z.add_0_r. now apply one_case.
  - rewrite computeRecall_no_wrap
      by (unfold UInt.in_range, UInt.modulus; lia).
    rewrite Z.add_0_r. now apply one_case.
  - rewrite computeIntersectionOverUnion_no_wrap
      by (unfold UInt.in_range, UInt.modulus; lia).
    rewrite !Z.add_0_r. now apply one_case.
  - intros Hfp0. rewrite computePrecision_no_wrap
      by (unfold UInt.in_range, UInt.modulus; lia).
    apply zero_case. lia.
  - intros Hfn0. rewrite computeRecall_no_wrap
      by (unfold UInt.in_range, UInt.modulus; lia).
    apply zero_case. lia.
  - intros Hsum. rewrite computeIntersectionOverUnion_no_wrap
      by (unfold UInt.in_range, UInt.modulus; lia).
    replace (0 + fp + fn) with (fp + fn) by lia. apply zero_case. lia.
Qed.

Lemma metrics_exact_at_the_ends_witness :
  UInt.in_range 16777217 /\ 0 < 16777217
  /\ computePrecision 16777217 0 = Float32.one
  /\ computeRecall 0 3 = Float32.zero.
Proof.
  assert (H1 : UInt.in_range 16777217)
    by (unfold UInt.in_range, UInt.modulus; lia).
  assert (H2 : UInt.in_range 3) by (unfold UInt.in_range, UInt.modulus; lia).
  assert (Hp : 0 < 16777217) by lia.
  destruct (metrics_exact_at_the_ends 16777217 3 3 H1 H2 H2 Hp)
    as (A & _ & _ & _ & B & _).
  split; [exact H1|]. split; [exact Hp|]. split; [exact A|].
  apply B. lia.
Defined.

(** ** Frames, again *)

Lemma evaluateRanges_ranges ev cloud w :
  ranges_ (fst (evaluateRanges ev cloud w)) = collect_ranges (ranges_ ev) cloud.
Proof. reflexivity. Qed.

(** What [writeScoresToFile] does to the log, the directories and the
    buckets. *)
Lemma writeScoresToFile_world ev cloud w :
  let r := writeScoresToFile ev cloud w in
  log (snd r) = log w ++ flat_map reports_of_level (evaluated_levels_ ev)
  /\ dirs (fs (snd r)) = dirs (fs w)
  /\ length (ranges_ (fst (fst r))) = length (ranges_ ev)
  /\ timestamp (snd (fst r)) = timestamp cloud
  /\ (evaluate_ranges (config_ ev) = false ->
      ranges_ (fst (fst r)) = ranges_ ev
      /\ forall q, scores_path ev <> q ->
                   files (fs (snd r)) !! q = files (fs w) !! q).
Proof.
  unfold writeScoresToFile. rewrite scores_row_closed.
  pose proof (filterEvaluatedPoints_timestamp (config_ ev) cloud) as Ht.
  destruct (evaluate_ranges (config_ ev)) eqn:Er.
  - unfold evaluateRanges. cbn [fst snd log fs dirs ranges_ with_fs write_trunc
                                  write_app].
    rewrite length_collect_ranges. repeat split; auto; discriminate.
  - cbn [fst snd log fs dirs files write_app].
    repeat split; auto. intros q Hq. now rewrite lookup_insert_ne.
Qed.

Section RunProperties.
Variable GroundTruthHandler : Type.
Variable labelCloudInfoIfAvailable :
  GroundTruthHandler -> CloudInfo -> bool * CloudInfo * GroundTruthHandler.

Local Abbreviation frame :=
  (evaluateFrame GroundTruthHandler labelCloudInfoIfAvailable).
Local Abbreviation run :=
  (evaluateFrames GroundTruthHandler labelCloudInfoIfAvailable).
Local Abbreviation labelled :=
  (labelled_frames GroundTruthHandler labelCloudInfoIfAvailable).

(** A frame with ground truth, in terms of [writeScoresToFile]. *)
Lemma evaluateFrame_available_eq report ev h w cloud cloud1 h1 :
  labelCloudInfoIfAvailable h cloud = (true, cloud1, h1) ->
  frame report (ev, h, w) cloud
  = (let r := writeScoresToFile ev cloud1 (writeTimingsToFile ev report w) in
     (mkEvaluator (config_ (fst (fst r))) (output_directory_ (fst (fst r)))
        (gt_frame_counter_ (fst (fst r)) + 1)
        (evaluated_levels_ (fst (fst r))) (ranges_ (fst (fst r))),
      h1,
      LOG INFO [TStr "Evaluated cloud ";
                TNum (gt_frame_counter_ (fst (fst r)) + 1);
                TStr " with timestamp "; TNum (timestamp (snd (fst r)));
                TStr "."] (snd r),
      snd (fst r))).
Proof.
  intros Hl. unfold evaluateFrame. rewrite Hl.
  now destruct (writeScoresToFile ev cloud1 (writeTimingsToFile ev report w))
    as [[ev2 cloud2] w2].
Qed.

(** What a frame does to the world besides the scores file. *)
Lemma evaluateFrame_world report ev h w cloud :
  let r := frame report (ev, h, w) cloud in
  let ev' := fst (fst (fst r)) in
  let w' := snd (fst r) in
  let l := labelCloudInfoIfAvailable h cloud in
  config_ ev' = config_ ev
  /\ output_directory_ ev' = output_directory_ ev
  /\ evaluated_levels_ ev' = evaluated_levels_ ev
  /\ length (ranges_ ev') = length (ranges_ ev)
  /\ dirs (fs w') = dirs (fs w)
  /\ file_content w' (timings_path ev) = [TStr report; TEndl]
  /\ (forall q, scores_path ev <> q -> timings_path ev <> q ->
                ranges_path ev <> q ->
                files (fs w') !! q = files (fs w) !! q)
  /\ (evaluate_ranges (config_ ev) = false ->
      ranges_ ev' = ranges_ ev
      /\ files (fs w') !! ranges_path ev = files (fs w) !! ranges_path ev)
  /\ log w'
     = log w
       ++ (if fst (fst l)
           then flat_map reports_of_level (evaluated_levels_ ev)
                ++ [evaluated_cloud_report (gt_frame_counter_ ev + 1)
                      (timestamp (snd (fst l)))]
           else []).
Proof.
  cbn zeta.
  destruct (labelCloudInfoIfAvailable h cloud) as [[[|] cloud1] h1] eqn:Hl.
  - rewrite (evaluateFrame_available_eq report ev h w cloud cloud1 h1 Hl).
    pose proof (writeScoresToFile_effect ev cloud1
                  (writeTimingsToFile ev report w)) as E.
    pose proof (writeScoresToFile_world ev cloud1
                  (writeTimingsToFile ev report w)) as W.
    cbn zeta in *.
    set (r := writeScoresToFile ev cloud1 (writeTimingsToFile ev report w)) in *.
    clearbody r. destruct r as [[ev2 cloud2] w2].
    cbn [fst snd config_ output_directory_ evaluated_levels_ ranges_ LOG fs
           log] in *.
    destruct E as (E1 & E2 & E3 & E4 & _ & E6).
    destruct W as (W1 & W2 & W3 & W4 & W5).
    split; [exact E1|]. split; [exact E2|]. split; [exact E4|].
    split; [exact W3|]. split; [exact W2|].
    split.
    { unfold file_content.
      rewrite E6 by (apply scores_ne_timings || apply ranges_ne_timings
                     || (intros X; symmetry in X; revert X;
                         first [apply scores_ne_timings
                               |apply ranges_ne_timings])).
      unfold writeTimingsToFile. apply file_content_write_trunc_eq. }
    split.
    { intros q Hs Ht Hr. rewrite E6 by assumption.
      unfold writeTimingsToFile. now apply lookup_write_trunc_ne. }
    split.
    { intros Er. destruct (W5 Er) as [R1 R2]. split; [exact R1|].
      rewrite R2 by (intros X; symmetry in X; revert X; apply scores_ne_ranges).
      unfold writeTimingsToFile.
      apply lookup_write_trunc_ne, ranges_ne_timings. }
    rewrite W1, E3, W4. unfold evaluated_cloud_report, writeTimingsToFile.
    cbn [with_fs log]. now rewrite <- app_assoc.
  - rewrite (evaluateFrame_unavailable GroundTruthHandler
               labelCloudInfoIfAvailable report ev h w cloud cloud1 h1 Hl).
    cbn [fst snd]. unfold writeTimingsToFile.
    repeat split; auto.
    + apply file_content_write_trunc_eq.
    + intros q _ Ht _. now apply lookup_write_trunc_ne.
    + apply lookup_write_trunc_ne, ranges_ne_timings.
    + cbn [with_fs log]. now rewrite app_nil_r.
Qed.

(** What a run keeps. *)
Lemma run_world frames ev h w :
  let st := run (ev, h, w) frames in
  let ev' := fst (fst st) in
  let w' := snd st in
  config_ ev' = config_ ev
  /\ output_directory_ ev' = output_directory_ ev
  /\ evaluated_levels_ ev' = evaluated_levels_ ev
  /\ length (ranges_ ev') = length (ranges_ ev)
  /\ dirs (fs w') = dirs (fs w)
  /\ (forall q, scores_path ev <> q -> timings_path ev <> q ->
                ranges_path ev <> q ->
                files (fs w') !! q = files (fs w) !! q)
  /\ (evaluate_ranges (config_ ev) = false ->
      ranges_ ev' = ranges_ ev
      /\ files (fs w') !! ranges_path ev = files (fs w) !! ranges_path ev).
Proof.
  revert ev h w. induction frames as [|[report cloud] frames IH];
    intros ev h w; cbn zeta.
  - repeat split; auto.
  - cbn [evaluateFrames].
    pose proof (evaluateFrame_world report ev h w cloud) as F.
    destruct (frame report (ev, h, w) cloud) as [[[ev1 h1] w1] cloud1].
    cbn zeta in F. cbn [fst snd] in F.
    destruct F as (F1 & F2 & F3 & F4 & F5 & _ & F7 & F8 & _).
    specialize (IH ev1 h1 w1). cbn zeta in IH.
    destruct IH as (I1 & I2 & I3 & I4 & I5 & I7 & I8).
    assert (Ps : scores_path ev1 = scores_path ev)
      by (unfold scores_path; now rewrite F2).
    assert (Pt : timings_path ev1 = timings_path ev)
      by (unfold timings_path; now rewrite F2).
    assert (Pr : ranges_path ev1 = ranges_path ev)
      by (unfold ranges_path; now rewrite F2).
    rewrite Ps, Pt, Pr, F1 in *.
    split; [congruence|]. split; [congruence|]. split; [congruence|].
    split; [congruence|]. split; [congruence|]. split.
    + intros q Hs Ht Hr. rewrite I7 by assumption. now apply F7.
    + intros Er. destruct (I8 Er) as [A B]. destruct (F8 Er) as [C D].
      split; congruence.
Qed.

(** X11: the counter of evaluated frames and the scores file stay in
    step: over a run the number of lines of the scores file grows by as
    much as the counter, and for an evaluator that its constructor
    returned the file has one line, the header, more than the counter
    says. *)
Theorem frame_counter_counts_rows :
  (forall frames ev h w,
     line_ends (file_content (snd (run (ev, h, w) frames)) (scores_path ev))
     - gt_frame_counter_ (fst (fst (run (ev, h, w) frames)))
     = line_ends (file_content w (scores_path ev)) - gt_frame_counter_ ev)
  /\ (forall now cfg w0 ev w h frames,
        Evaluator_new now cfg w0 = Some (ev, w) ->
        line_ends
          (file_content (snd (run (ev, h, w) frames)) (scores_path ev))
        = 1 + gt_frame_counter_ (fst (fst (run (ev, h, w) frames)))).
Proof.
  split.
  - intros frames ev h w.
    destruct (evaluateFrames_scores_lines GroundTruthHandler
                labelCloudInfoIfAvailable frames ev h w) as [A B].
    rewrite A, B. lia.
  - intros now cfg w0 ev w h frames Hnew.
    destruct (evaluateFrames_scores_lines GroundTruthHandler
                labelCloudInfoIfAvailable frames ev h w) as [A B].
    destruct (Evaluator_new_Some now cfg w0 ev w Hnew)
      as (_ & _ & _ & Hc & _).
    rewrite A, B, (header_line_ends now cfg w0 ev w Hnew), Hc. reflexivity.
Qed.

(** X12: after a run of at least one frame the timings file holds the
    report of the last frame, whether or not that frame had ground truth. *)
Theorem timings_hold_last_report frames ev h w report cloud :
  last frames = Some (report, cloud) ->
  file_content (snd (run (ev, h, w) frames)) (timings_path ev)
  = [TStr report; TEndl].
Proof.
  revert ev h w. induction frames as [|[report0 cloud0] frames IH];
    intros ev h w Hlast; [discriminate Hlast|].
  cbn [evaluateFrames].
  pose proof (evaluateFrame_world report0 ev h w cloud0) as F.
  destruct (frame report0 (ev, h, w) cloud0) as [[[ev1 h1] w1] cloud1].
  cbn zeta in F. cbn [fst snd] in F.
  destruct F as (_ & F2 & _ & _ & _ & F6 & _).
  assert (Pt : timings_path ev1 = timings_path ev)
    by (unfold timings_path; now rewrite F2).
  destruct frames as [|f frames].
  - simpl in Hlast. injection Hlast as -> ->. exact F6.
  - rewrite <- Pt. apply IH. exact Hlast.
Qed.


End RunProperties.

Lemma timings_hold_last_report_witness :
  last three_frames
  = Some ("t2"%string, mkCloudInfo 4 (points three_points_cloud))
  /\ file_content
       (snd (evaluateFrames unit even_handler
               (ranges_evaluator, tt, empty_world) three_frames))
       (timings_path ranges_evaluator)
     = [TStr "t2"; TEndl].
Proof.
  split; [reflexivity|].
  exact (timings_hold_last_report unit even_handler three_frames
           ranges_evaluator tt empty_world "t2"
           (mkCloudInfo 4 (points three_points_cloud)) eq_refl).
Defined.


(** ** Rows and the log *)

Lemma known_level_cases level :
  known_level level = true ->
  level = "point"%string \/ level = "cluster"%string
  \/ level = "object"%string.
Proof.
  unfold known_level, check_level_of.
  destruct (String.eqb level "point") eqn:E1;
    [apply String.eqb_eq in E1; auto|].
  destruct (String.eqb level "cluster") eqn:E2;
    [apply String.eqb_eq in E2; auto|].
  destruct (String.eqb level "object") eqn:E3;
    [apply String.eqb_eq in E3; auto|].
  discriminate.
Qed.

Lemma constructed_levels_known now cfg w0 ev w :
  Evaluator_new now cfg w0 = Some (ev, w) ->
  forallb known_level (evaluated_levels_ ev) = true.
Proof.
  intros Hnew.
  destruct (Evaluator_new_Some now cfg w0 ev w Hnew)
    as (_ & _ & _ & _ & -> & _).
  destruct (evaluate_point_level cfg), (evaluate_cluster_level cfg),
    (evaluate_object_level cfg); reflexivity.
Qed.

Lemma reports_of_known_levels levels :
  forallb known_level levels = true -> flat_map reports_of_level levels = [].
Proof.
  induction levels as [|level levels IH]; [reflexivity|].
  cbn [forallb flat_map]. intros H. apply andb_true_iff in H as [Hk Hr].
  rewrite IH by exact Hr. unfold reports_of_level, known_level in *.
  now destruct (check_level_of level).
Qed.

Lemma separators_app l1 l2 :
  separators (l1 ++ l2) = separators l1 + separators l2.
Proof.
  induction l1 as [|t l1 IH]; simpl; [reflexivity|].
  rewrite IH. lia.
Qed.

Lemma separators_columns cloud levels :
  forallb known_level levels = true ->
  separators (flat_map (columns_of_level cloud) levels)
  = 7 * Z.of_nat (length levels).
Proof.
  induction levels as [|level levels IH]; [reflexivity|].
  cbn [forallb flat_map length]. intros H.
  apply andb_true_iff in H as [Hk Hr].
  rewrite separators_app, IH by exact Hr.
  unfold columns_of_level, known_level in *.
  destruct (check_level_of level); [|discriminate Hk].
  cbn [metrics_columns separators fold_right separators_of commas]. simpl.
  lia.
Qed.

Lemma separators_header levels :
  forallb known_level levels = true ->
  separators (flat_map header_of_level levels) = 7 * Z.of_nat (length levels).
Proof.
  induction levels as [|level levels IH]; [reflexivity|].
  cbn [forallb flat_map length]. intros H.
  apply andb_true_iff in H as [Hk Hr].
  rewrite separators_app, IH by exact Hr.
  destruct (known_level_cases level Hk) as [-> | [-> | ->]];
    replace (Z.of_nat (S (length levels)))
      with (1 + Z.of_nat (length levels)) by lia;
    vm_compute separators at 1; lia.
Qed.

(** A row has two separators and seven for each known level. *)
Lemma separators_row ev cloud lg :
  forallb known_level (evaluated_levels_ ev) = true ->
  separators (fst (fst (scores_row ev cloud lg)))
  = separators_per_line (length (evaluated_levels_ ev)).
Proof.
  intros Hk. rewrite scores_row_closed. cbn [fst].
  rewrite !separators_app, separators_columns by exact Hk.
  unfold separators_per_line.
  set (n := Z.of_nat (length (evaluated_levels_ ev))).
  cbn. lia.
Qed.

Lemma separators_constructed_header now cfg w0 ev w :
  Evaluator_new now cfg w0 = Some (ev, w) ->
  separators (file_content w (scores_path ev))
  = separators_per_line (length (evaluated_levels_ ev)).
Proof.
  intros Hnew.
  pose proof (constructed_levels_known now cfg w0 ev w Hnew) as Hk.
  destruct (Evaluator_new_Some now cfg w0 ev w Hnew)
    as (_ & _ & Hdir & _ & _ & _ & _ & Hfiles & _).
  unfold file_content, scores_path.
  rewrite Hfiles, Hdir, lookup_insert_eq. cbn [from_option id].
  rewrite !separators_app, separators_header by exact Hk.
  unfold separators_per_line.
  set (n := Z.of_nat (length _)).
  change (separators [TStr "timestamp,"]) with 1.
  change (separators [TStr "EvaluatedPoints,TotalPoints"; TEndl]) with 1.
  lia.
Qed.

Section RowProperties.
Variable GroundTruthHandler : Type.
Variable labelCloudInfoIfAvailable :
  GroundTruthHandler -> CloudInfo -> bool * CloudInfo * GroundTruthHandler.

Local Abbreviation frame :=
  (evaluateFrame GroundTruthHandler labelCloudInfoIfAvailable).
Local Abbreviation run :=
  (evaluateFrames GroundTruthHandler labelCloudInfoIfAvailable).

(** The scores file after a frame: as before, with the row of the frame
    when it has ground truth. *)
Lemma evaluateFrame_scores_content report ev h w cloud :
  file_content (snd (fst (frame report (ev, h, w) cloud))) (scores_path ev)
  = file_content w (scores_path ev)
    ++ (if fst (fst (labelCloudInfoIfAvailable h cloud))
        then fst (fst (scores_row ev
                         (snd (fst (labelCloudInfoIfAvailable h cloud)))
                         (log w)))
        else []).
Proof.
  destruct (labelCloudInfoIfAvailable h cloud) as [[[|] cloud1] h1] eqn:Hl.
  - now destruct (evaluateFrame_available GroundTruthHandler
                    labelCloudInfoIfAvailable report ev h w cloud cloud1 h1 Hl)
      as (_ & _ & _ & _ & _ & Hs & _).
  - rewrite (evaluateFrame_unavailable GroundTruthHandler
               labelCloudInfoIfAvailable report ev h w cloud cloud1 h1 Hl).
    cbn [fst snd]. rewrite app_nil_r. unfold file_content, writeTimingsToFile.
    now rewrite lookup_write_trunc_ne by apply scores_ne_timings.
Qed.

(** Over a run of an evaluator whose levels are known, the separators of
    the scores file grow in step with its lines, and the log grows by
    entries of severity INFO only. *)
Lemma run_rows_and_log frames ev h w :
  forallb known_level (evaluated_levels_ ev) = true ->
  separators (file_content (snd (run (ev, h, w) frames)) (scores_path ev))
  - line_ends (file_content (snd (run (ev, h, w) frames)) (scores_path ev))
    * separators_per_line (length (evaluated_levels_ ev))
  = separators (file_content w (scores_path ev))
    - line_ends (file_content w (scores_path ev))
      * separators_per_line (length (evaluated_levels_ ev))
  /\ exists added,
       log (snd (run (ev, h, w) frames)) = log w ++ added
       /\ forallb is_info added = true.
Proof.
  revert ev h w. induction frames as [|[report cloud] frames IH];
    intros ev h w Hk.
  - split; [reflexivity|]. exists []. now rewrite app_nil_r.
  - cbn [evaluateFrames].
    pose proof (evaluateFrame_world GroundTruthHandler
                  labelCloudInfoIfAvailable report ev h w cloud) as F.
    pose proof (evaluateFrame_scores_content report ev h w cloud) as C.
    destruct (frame report (ev, h, w) cloud) as [[[ev1 h1] w1] cloud1].
    cbn zeta in F. cbn [fst snd] in F, C.
    destruct F as (_ & F2 & F3 & _ & _ & _ & _ & _ & F9).
    assert (Ps : scores_path ev1 = scores_path ev)
      by (unfold scores_path; now rewrite F2).
    specialize (IH ev1 h1 w1). rewrite F3, Ps in IH.
    destruct (IH Hk) as (I1 & added & I2 & I3). clear IH.
    rewrite reports_of_known_levels in F9 by exact Hk.
    split.
    + rewrite I1, C.
      destruct (fst (fst (labelCloudInfoIfAvailable h cloud))).
      * rewrite separators_app, line_ends_app, separators_row by exact Hk.
        rewrite scores_row_line_ends. lia.
      * now rewrite app_nil_r.
    + rewrite I2, F9.
      destruct (fst (fst (labelCloudInfoIfAvailable h cloud))).
      * eexists. rewrite <- app_assoc. split; [reflexivity|].
        cbn [app forallb]. exact I3.
      * exists added. now rewrite app_nil_r.
Qed.

(** X14: an evaluator that its constructor returned never runs into the
    branch for an unknown level: its levels are among point, cluster and
    object, and over any run everything it adds to the log has severity
    INFO. *)
Theorem constructed_evaluator_reports_no_error now cfg w0 ev w h frames :
  Evaluator_new now cfg w0 = Some (ev, w) ->
  Forall (fun level => level = "point"%string \/ level = "cluster"%string
                       \/ level = "object"%string)
    (evaluated_levels_ ev)
  /\ exists added,
       log (snd (run (ev, h, w) frames)) = log w0 ++ added
       /\ forallb is_info added = true.
Proof.
  intros Hnew.
  pose proof (constructed_levels_known now cfg w0 ev w Hnew) as Hk. split.
  - apply Forall_forall. intros level Hin. apply known_level_cases.
    rewrite forallb_forall in Hk. apply Hk. now apply list_elem_of_In.
  - destruct (run_rows_and_log frames ev h w Hk) as (_ & added & A & B).
    destruct (Evaluator_new_Some now cfg w0 ev w Hnew)
      as (_ & _ & _ & _ & _ & _ & _ & _ & Hlog).
    eexists. rewrite A, Hlog, <- app_assoc.
    split; [reflexivity|]. exact B.
Qed.

(** X15: the scores file of an evaluator that its constructor returned is
    rectangular: the header and every row hold the same number of
    separators, two and seven for each level, so that after any run the
    separators of the file are that number times its lines. *)
Theorem scores_file_is_rectangular now cfg w0 ev w h frames :
  Evaluator_new now cfg w0 = Some (ev, w) ->
  (forall cloud lg,
     separators (fst (fst (scores_row ev cloud lg)))
     = separators_per_line (length (evaluated_levels_ ev)))
  /\ separators (file_content w (scores_path ev))
     = separators_per_line (length (evaluated_levels_ ev))
  /\ separators
       (file_content (snd (run (ev, h, w) frames)) (scores_path ev))
     = line_ends
         (file_content (snd (run (ev, h, w) frames)) (scores_path ev))
       * separators_per_line (length (evaluated_levels_ ev)).
Proof.
  intros Hnew.
  pose proof (constructed_levels_known now cfg w0 ev w Hnew) as Hk.
  split; [|split].
  - intros cloud lg. now apply separators_row.
  - now apply (separators_constructed_header now cfg w0).
  - destruct (run_rows_and_log frames ev h w Hk) as (A & _).
    rewrite (separators_constructed_header now cfg w0 ev w Hnew),
      (header_line_ends now cfg w0 ev w Hnew) in A. lia.
Qed.

End RowProperties.

Lemma constructed_evaluator_reports_no_error_witness :
  exists ev w,
    Evaluator_new noon window_0_10 empty_world = Some (ev, w)
    /\ Forall (fun level => level = "point"%string \/ level = "cluster"%string
                            \/ level = "object"%string)
         (evaluated_levels_ ev)
    /\ exists added,
         log (snd (evaluateFrames unit even_handler (ev, tt, w) three_frames))
         = log empty_world ++ added
         /\ forallb is_info added = true.
Proof.
  destruct (Evaluator_new noon window_0_10 empty_world) as [[ev w]|] eqn:Hnew;
    [|vm_compute in Hnew; discriminate Hnew].
  exists ev, w. split; [reflexivity|].
  exact (constructed_evaluator_reports_no_error unit even_handler noon
           window_0_10 empty_world ev w tt three_frames Hnew).
Defined.

Lemma scores_file_is_rectangular_witness :
  exists ev w,
    Evaluator_new noon window_0_10 empty_world = Some (ev, w)
    /\ separators (file_content w (scores_path ev))
       = separators_per_line (length (evaluated_levels_ ev))
    /\ separators
         (file_content
            (snd (evaluateFrames unit even_handler (ev, tt, w) three_frames))
            (scores_path ev))
       = line_ends
           (file_content
              (snd (evaluateFrames unit even_handler (ev, tt, w) three_frames))
              (scores_path ev))
         * separators_per_line (length (evaluated_levels_ ev)).
Proof.
  destruct (Evaluator_new noon window_0_10 empty_world) as [[ev w]|] eqn:Hnew;
    [|vm_compute in Hnew; discriminate Hnew].
  exists ev, w. split; [reflexivity|].
  exact (proj2 (scores_file_is_rectangular unit even_handler noon window_0_10
                  empty_world ev w tt three_frames Hnew)).
Defined.

(** ** Set-up, again *)

Lemma digit_inj a b : digit a = digit b -> a mod 10 = b mod 10.
Proof.
  unfold digit. intros H. apply (f_equal nat_of_ascii) in H.
  pose proof (Z.mod_pos_bound a 10 ltac:(lia)).
  pose proof (Z.mod_pos_bound b 10 ltac:(lia)).
  rewrite !nat_ascii_embedding in H by lia. lia.
Qed.

Lemma two_digits_inj a b :
  0 <= a < 100 -> 0 <= b < 100 -> two_digits a = two_digits b -> a = b.
Proof.
  unfold two_digits. intros Ha Hb [= H1 H2].
  apply digit_inj in H1, H2.
  revert H1 H2. Z.div_mod_to_equations. lia.
Qed.

Lemma four_digits_inj a b :
  1000 <= a <= 9999 -> 1000 <= b <= 9999 -> decimal a = decimal b -> a = b.
Proof.
  intros Ha Hb. rewrite !decimal_four_digits by assumption.
  intros [= H1 H2 H3 H4]. apply digit_inj in H1, H2, H3, H4.
  revert H1 H2 H3 H4. Z.div_mod_to_equations. lia.
Qed.

Lemma put_time_parts t :
  valid_tm t ->
  exists y1 y2 y3 y4,
    decimal (tm_year t + 1900) = String y1 (String y2 (String y3 (String y4 "")))
    /\ put_time t
       = (String y1 (String y2 (String y3 (String y4 "")))
          ++ "_" ++ two_digits (tm_mon t + 1) ++ "_"
          ++ two_digits (tm_mday t) ++ "-" ++ two_digits (tm_hour t) ++ "_"
          ++ two_digits (tm_min t) ++ "_" ++ two_digits (tm_sec t))%string.
Proof.
  intros (_ & _ & _ & _ & _ & Hy). unfold put_time.
  rewrite decimal_four_digits by exact Hy. eauto 10.
Qed.

(** X17: the time stamp tells the local times of a four-digit year apart:
    two such times with the same time stamp are the same, so evaluators
    that meet the same existing directory at different seconds work in
    different subdirectories. *)
Theorem put_time_injective t1 t2 :
  valid_tm t1 -> valid_tm t2 -> put_time t1 = put_time t2 -> t1 = t2.
Proof.
  intros V1 V2 H.
  destruct (put_time_parts t1 V1) as (a1 & a2 & a3 & a4 & D1 & P1).
  destruct (put_time_parts t2 V2) as (b1 & b2 & b3 & b4 & D2 & P2).
  rewrite P1, P2 in H. unfold two_digits in H. cbv [String.append] in H.
  injection H as Y1 Y2 Y3 Y4 M1 M2 A1 A2 H1 H2 N1 N2 S1 S2.
  destruct V1 as (Vs1 & Vm1 & Vh1 & Vd1 & Vo1 & Vy1).
  destruct V2 as (Vs2 & Vm2 & Vh2 & Vd2 & Vo2 & Vy2).
  assert (Ey : tm_year t1 + 1900 = tm_year t2 + 1900).
  { apply four_digits_inj; try assumption. rewrite D1, D2. congruence. }
  assert (Eo : tm_mon t1 + 1 = tm_mon t2 + 1).
  { apply two_digits_inj; try lia. unfold two_digits. congruence. }
  assert (Ed : tm_mday t1 = tm_mday t2).
  { apply two_digits_inj; try lia. unfold two_digits. congruence. }
  assert (Eh : tm_hour t1 = tm_hour t2).
  { apply two_digits_inj; try lia. unfold two_digits. congruence. }
  assert (Em : tm_min t1 = tm_min t2).
  { apply two_digits_inj; try lia. unfold two_digits. congruence. }
  assert (Es : tm_sec t1 = tm_sec t2).
  { apply two_digits_inj; try lia. unfold two_digits. congruence. }
  destruct t1, t2. simpl in *. f_equal; lia.
Qed.

Lemma put_time_injective_witness :
  valid_tm noon /\ put_time noon = put_time noon /\ noon = noon.
Proof.
  assert (Hv : valid_tm noon) by (unfold valid_tm, noon; simpl; lia).
  split; [exact Hv|]. split; [reflexivity|].
  exact (put_time_injective noon noon Hv Hv eq_refl).
Defined.

(** *** Paths that were made exist *)

Lemma feed_snoc stack cur acc c :
  feed stack cur (acc ++ String c "")
  = (if is_slash c
     then (enter (feed stack cur acc).1 (feed stack cur acc).2, ""%string)
     else ((feed stack cur acc).1,
           ((feed stack cur acc).2 ++ String c "")%string)).
Proof.
  revert stack cur. induction acc as [|x acc IH]; intros stack cur.
  - change ("" ++ String c "")%string with (String c "").
    cbn [feed fst snd]. now destruct (is_slash c).
  - rewrite append_cons. cbn [feed].
    destruct (is_slash x); apply IH.
Qed.

Lemma root_of_app acc s :
  acc <> ""%string -> root_of (acc ++ s) = root_of acc.
Proof. now destruct acc. Qed.

Lemma is_dir_root f p : is_dir f (root_of p) = true.
Proof.
  unfold is_dir, root_of.
  destruct p as [|c p]; [reflexivity|]. now destruct (is_slash c).
Qed.

Lemma is_dir_made f a : a ∈ dirs f -> is_dir f (locate a) = true.
Proof.
  intros Ha. unfold is_dir.
  assert (Hin : locate a ∈ dir_locations f).
  { unfold dir_locations. apply list_elem_of_In, in_map, list_elem_of_In.
    now apply elem_of_elements. }
  rewrite (bool_decide_eq_true_2 _ Hin).
  now rewrite orb_true_r.
Qed.

(** The walk of a path whose elements are all directories that were made
    ends at a directory. *)
Lemma resolve_from_made f p s :
  forall acc stack cur,
    p = (acc ++ s)%string ->
    p <> ""%string ->
    feed (root_of p) "" acc = (stack, cur) ->
    is_dir f stack = true ->
    (forall a, In a (ancestors_from acc s) -> a ∈ dirs f) ->
    exists loc, resolve_from f stack cur s = Some loc /\ is_dir f loc = true.
Proof.
  induction s as [|c s IH]; intros acc stack cur Hp Hne Hfeed Hdir Hmade.
  - rewrite append_nil_r in Hp. subst acc.
    cbn [resolve_from]. rewrite Hdir. eexists. split; [reflexivity|].
    replace (enter stack cur) with (locate p)
      by (unfold locate; now rewrite Hfeed).
    apply is_dir_made, Hmade. now left.
  - cbn [resolve_from ancestors_from] in *. fold (is_slash c) in Hmade.
    destruct (is_slash c) eqn:Hc.
    + rewrite Hdir. apply (IH (acc ++ "/")%string).
      * now rewrite append_assoc, Hp; apply Ascii.eqb_eq in Hc; subst c.
      * exact Hne.
      * apply Ascii.eqb_eq in Hc.
        change "/"%string with (String "/" ""). rewrite feed_snoc, Hfeed.
        reflexivity.
      * destruct (String.eqb acc "") eqn:Hacc.
        -- apply String.eqb_eq in Hacc. subst acc.
           cbn [feed] in Hfeed. injection Hfeed as <- <-.
           change (enter (root_of p) "") with (root_of p).
           apply is_dir_root.
        -- apply String.eqb_neq in Hacc.
           replace (enter stack cur) with (locate acc).
           { apply is_dir_made, Hmade, in_or_app. left. now left. }
           unfold locate. rewrite <- (root_of_app acc (String c s) Hacc).
           rewrite <- Hp. now rewrite Hfeed.
      * intros a Ha. apply Hmade, in_or_app. now right.
    + apply (IH (acc ++ String c "")%string).
      * now rewrite append_assoc.
      * exact Hne.
      * rewrite feed_snoc, Hfeed, Hc. reflexivity.
      * exact Hdir.
      * exact Hmade.
Qed.

(** A path whose elements are all among the directories exists. *)
Lemma fs_exists_made p f :
  p <> ""%string ->
  (forall a, In a (ancestors_from "" p) -> a ∈ dirs f) ->
  fs_exists p f = true.
Proof.
  intros Hne Hmade. unfold fs_exists, resolve.
  apply String.eqb_neq in Hne as Hb. rewrite Hb. cbn [negb andb].
  apply String.eqb_neq in Hb.
  destruct (resolve_from_made f p p "" (root_of p) "" eq_refl Hne eq_refl
              (is_dir_root f p) Hmade) as (loc & -> & Hloc).
  now rewrite Hloc.
Qed.



Lemma blocked_nonempty p f : blocked p f = false -> p <> ""%string.
Proof.
  unfold blocked. intros H ->. discriminate H.
Qed.

(** The directory of an evaluator that its constructor returned exists,
    and stays so as long as no directory is removed. *)
Lemma Evaluator_new_directory_exists now cfg w0 ev w f :
  Evaluator_new now cfg w0 = Some (ev, w) ->
  dirs (fs w) ⊆ dirs f ->
  fs_exists (output_directory_ ev) f = true.
Proof.
  intros Hnew Hsub.
  destruct (Evaluator_new_Some now cfg w0 ev w Hnew)
    as (Hb & _ & Hdir & _ & _ & _ & Hdirs & _).
  rewrite Hdir. apply fs_exists_made.
  - exact (blocked_nonempty _ _ Hb).
  - intros a Ha. apply Hsub. rewrite Hdirs. apply elem_of_union. right.
    now apply elem_of_list_to_set, list_elem_of_In.
Qed.

Lemma Evaluator_new_files now cfg w0 ev w q :
  Evaluator_new now cfg w0 = Some (ev, w) ->
  scores_path ev <> q ->
  files (fs w) !! q = files (fs w0) !! q.
Proof.
  intros Hnew Hq.
  destruct (Evaluator_new_Some now cfg w0 ev w Hnew)
    as (_ & _ & Hdir & _ & _ & _ & _ & Hfiles & _).
  rewrite Hfiles. apply lookup_insert_ne.
  unfold scores_path in Hq. now rewrite Hdir in Hq.
Qed.




(** X16: when the configured directory is missing and can be made, the
    constructor returns an evaluator that works in that directory. After
    any run of this evaluator the directory exists, so a second
    construction for the same configuration turns to the subdirectory
    named by its time stamp: it throws when that subdirectory cannot be
    made, and otherwise returns an evaluator that works there and leaves
    the scores, ranges and timings files of the first evaluator, as the run
    left them, untouched. *)
Theorem second_evaluator_keeps_files_of_first
    (H : Type) (label : H -> CloudInfo -> bool * CloudInfo * H)
    now1 now2 cfg w0 :
  fs_exists (output_directory cfg) (fs w0) = false ->
  blocked (output_directory cfg) (fs w0) = false ->
  exists ev1 w1,
    Evaluator_new now1 cfg w0 = Some (ev1, w1)
    /\ output_directory_ ev1 = output_directory cfg
    /\ forall h frames,
         let w2 := snd (evaluateFrames H label (ev1, h, w1) frames) in
         let sub := (output_directory cfg ++ "/" ++ put_time now2)%string in
         fs_exists (output_directory cfg) (fs w2) = true
         /\ (blocked sub (fs w2) = true -> Evaluator_new now2 cfg w2 = None)
         /\ (blocked sub (fs w2) = false ->
             exists ev2 w3,
               Evaluator_new now2 cfg w2 = Some (ev2, w3)
               /\ output_directory_ ev2 = sub
               /\ Forall
                    (fun q => files (fs w3) !! q = files (fs w2) !! q)
                    (own_files ev1)).
Proof.
  intros Hfresh Hfree.
  pose proof (Evaluator_new_returns now1 cfg w0) as Hret.
  cbn zeta in Hret. rewrite Hfresh, Hfree in Hret.
  destruct Hret as (ev1 & w1 & Hnew1). exists ev1, w1.
  destruct (Evaluator_new_Some now1 cfg w0 ev1 w1 Hnew1)
    as (_ & _ & D1 & _).
  rewrite Hfresh in D1.
  split; [exact Hnew1|]. split; [exact D1|].
  intros h frames w2 sub.
  destruct (run_world H label frames ev1 h w1) as (_ & _ & _ & _ & Hdirs & _).
  cbn zeta in Hdirs. fold w2 in Hdirs.
  assert (E2 : fs_exists (output_directory cfg) (fs w2) = true).
  { rewrite <- D1.
    apply (Evaluator_new_directory_exists now1 cfg w0 ev1 w1 (fs w2) Hnew1).
    now rewrite Hdirs. }
  pose proof (Evaluator_new_returns now2 cfg w2) as Hret.
  cbn zeta in Hret. rewrite E2 in Hret. fold sub in Hret.
  split; [exact E2|]. split.
  - intros Hb. now rewrite Hb in Hret.
  - intros Hb. rewrite Hb in Hret. destruct Hret as (ev2 & w3 & Hnew2).
    exists ev2, w3.
    destruct (Evaluator_new_Some now2 cfg w2 ev2 w3 Hnew2)
      as (_ & _ & D2 & _).
    rewrite E2 in D2. fold sub in D2.
    split; [exact Hnew2|]. split; [exact D2|].
    unfold own_files, scores_path, ranges_path, timings_path. rewrite D1.
    repeat constructor;
      apply (Evaluator_new_files now2 cfg w2 ev2 w3 _ Hnew2);
      unfold scores_path; rewrite D2; now apply path_in_timestamped_ne.
Qed.

Lemma second_evaluator_keeps_files_of_first_witness :
  fs_exists (output_directory window_0_10) (fs empty_world) = false
  /\ blocked (output_directory window_0_10) (fs empty_world) = false
  /\ exists ev1 w1,
       Evaluator_new noon window_0_10 empty_world = Some (ev1, w1)
       /\ output_directory_ ev1 = output_directory window_0_10
       /\ let w2 := snd (evaluateFrames unit even_handler (ev1, tt, w1)
                           three_frames) in
          fs_exists (output_directory window_0_10) (fs w2) = true
          /\ exists ev2 w3,
               Evaluator_new a_minute_after_noon window_0_10 w2
               = Some (ev2, w3)
               /\ output_directory_ ev2 = "out/2026_10_30-12_01_00"%string
               /\ Forall
                    (fun q => files (fs w3) !! q = files (fs w2) !! q)
                    (own_files ev1).
Proof.
  assert (Hf : fs_exists (output_directory window_0_10) (fs empty_world)
               = false) by (vm_compute; reflexivity).
  assert (Hb : blocked (output_directory window_0_10) (fs empty_world)
               = false) by (vm_compute; reflexivity).
  destruct (second_evaluator_keeps_files_of_first unit even_handler noon
              a_minute_after_noon window_0_10 empty_world Hf Hb)
    as (ev1 & w1 & H1 & H2 & H3).
  split; [exact Hf|]. split; [exact Hb|].
  exists ev1, w1. split; [exact H1|]. split; [exact H2|].
  destruct (H3 tt three_frames) as (He & _ & Hsecond).
  cbn zeta in He, Hsecond |- *.
  split; [exact He|]. apply Hsecond.
  vm_compute in H1. injection H1 as <- <-. vm_compute. reflexivity.
Defined.

(** Two evaluators for [out], the second constructed a minute after the
    first has evaluated three frames: the second works in
    [out/2026_10_30-12_01_00] and the three files of the first hold what
    its run left in them. *)
Example second_evaluator_after_a_run :
  match Evaluator_new noon window_0_10 empty_world with
  | Some (ev1, w1) =>
      let w2 := snd (evaluateFrames unit even_handler (ev1, tt, w1)
                       three_frames) in
      match Evaluator_new a_minute_after_noon window_0_10 w2 with
      | Some (ev2, w3) =>
          output_directory_ ev2 = "out/2026_10_30-12_01_00"%string
          /\ line_ends (file_content w3 "out/scores.csv") = 3
          /\ file_content w3 "out/timings.txt" = [TStr "t2"; TEndl]
          /\ line_ends (file_content w3 "out/2026_10_30-12_01_00/scores.csv")
             = 1
      | None => False
      end
  | None => False
  end.
Proof. vm_compute. repeat split. Qed.

Lemma SFcompare_refl x : is_nan x = false -> SFcompare x x = Some Eq.
Proof.
  destruct x as [s|s| |s m e]; try discriminate; intros _.
  - reflexivity.
  - now destruct s.
  - simpl. rewrite Z.compare_refl, Pos.compare_cont_refl. now destruct s.
Qed.

Lemma SFcompare_Gt_Lt x y : SFcompare x y = Some Gt -> SFcompare y x = Some Lt.
Proof.
  destruct x as [sx|sx| |sx mx ex], y as [sy|sy| |sy my ey];
    try discriminate; simpl;
    try (destruct sx; try destruct sy; congruence);
    try (destruct sy; congruence).
  change (Pos.compare_cont Eq mx my) with (Pos.compare mx my).
  change (Pos.compare_cont Eq my mx) with (Pos.compare my mx).
  rewrite (Z.compare_antisym ex ey), (Pos.compare_antisym mx my).
  destruct sx, sy, (ex ?= ey), (Pos.compare mx my); simpl; congruence.
Qed.

Lemma SFcompare_Some_not_nan x y c :
  SFcompare x y = Some c -> is_nan x = false /\ is_nan y = false.
Proof.
  destruct x, y; try discriminate; auto.
Qed.

(** X18: a configuration that passes [checkParams] has a name for its
    output directory and a window that is not empty: neither bound is a
    NaN, and a point at the distance [min_range] and a point at the distance
    [max_range] both lie in the window. *)
Theorem checked_window_contains_its_bounds ground_truth_ok cfg p :
  checkParams ground_truth_ok cfg = true ->
  distance_to_sensor p = min_range cfg \/ distance_to_sensor p = max_range cfg ->
  within_range cfg p = true
  /\ output_directory cfg <> ""%string
  /\ is_nan (min_range cfg) = false /\ is_nan (max_range cfg) = false.
Proof.
  unfold checkParams. intros Hc Hd.
  apply andb_true_iff in Hc as [Hc _].
  apply andb_true_iff in Hc as [Hc Hgt].
  apply andb_true_iff in Hc as [Hout _].
  unfold float_gtb in Hgt.
  destruct (SFcompare (max_range cfg) (min_range cfg)) as [[ | | ]|] eqn:Hcmp;
    try discriminate Hgt.
  destruct (SFcompare_Some_not_nan _ _ _ Hcmp) as [Nmax Nmin].
  pose proof (SFcompare_Gt_Lt _ _ Hcmp) as Hlt.
  split; [|split; [|split; assumption]].
  - unfold within_range, Float32.geb, Float32.leb.
    destruct Hd as [-> | ->].
    + now rewrite SFcompare_refl, Hlt.
    + now rewrite Hcmp, SFcompare_refl.
  - apply negb_true_iff, String.eqb_neq in Hout. exact Hout.
Qed.

Lemma checked_window_contains_its_bounds_witness :
  checkParams true
    (mkConfig "out" (Float32.of_Z 0) (Float32.of_Z 10) true true true true)
  = true
  /\ within_range window_0_10
       (mkPointInfo (Float32.of_Z 10) false false false false false) = true.
Proof.
  assert (H : checkParams true window_0_10 = true) by reflexivity.
  split; [exact H|].
  exact (proj1 (checked_window_contains_its_bounds true window_0_10
                  (mkPointInfo (Float32.of_Z 10) false false false false false)
                  H (or_intror eq_refl))).
Defined.

(** ** Order of the metrics *)

Lemma new_location_spec d r :
  0 < d -> 0 <= r < d ->
  new_location d r
  = if r =? 0 then loc_Exact else loc_Inexact (2 * r ?= d).
Proof.
  intros Hd Hr. unfold new_location.
  destruct (Z.even d) eqn:Ev;
    unfold new_location_even, new_location_odd;
    destruct (r =? 0) eqn:E0; try reflexivity.
  pose proof (Zmod_even d) as Hm. rewrite Ev in Hm.
  pose proof (Z.div_mod d 2 ltac:(lia)) as Hdm.
  f_equal.
  destruct (Z.compare_spec (2 * r + 1) d), (Z.compare_spec (2 * r) d);
    try reflexivity; lia.
Qed.

Lemma round_nearest_even_round_ratio n d :
  0 < d -> 0 <= n ->
  round_nearest_even (n / d) (new_location d (n mod d)) = round_ratio n d.
Proof.
  intros Hd Hn. pose proof (Z.mod_pos_bound n d Hd) as Hr.
  rewrite new_location_spec by assumption. unfold round_ratio.
  destruct (n mod d =? 0) eqn:E0.
  - apply Z.eqb_eq in E0. rewrite E0. cbn [round_nearest_even].
    replace (d <? 2 * 0) with false by (symmetry; apply Z.ltb_ge; lia).
    replace (2 * 0 =? d) with false by (symmetry; apply Z.eqb_neq; lia).
    reflexivity.
  - cbn [round_nearest_even].
    destruct (Z.compare_spec (2 * (n mod d)) d) as [E|E|E].
    + replace (d <? 2 * (n mod d)) with false
        by (symmetry; apply Z.ltb_ge; lia).
      replace (2 * (n mod d) =? d) with true
        by (symmetry; apply Z.eqb_eq; lia).
      rewrite <- Z.negb_odd. now destruct (Z.odd (n / d)).
    + replace (d <? 2 * (n mod d)) with false
        by (symmetry; apply Z.ltb_ge; lia).
      replace (2 * (n mod d) =? d) with false
        by (symmetry; apply Z.eqb_neq; lia).
      reflexivity.
    + replace (d <? 2 * (n mod d)) with true
        by (symmetry; apply Z.ltb_lt; lia).
      reflexivity.
Qed.

(** One shift of the quotient of [n] by [d] with the location of the
    remainder rounds [n] by [2 * d]. *)
Lemma round_nearest_even_shifted n d :
  0 < d -> 0 <= n ->
  round_nearest_even
    (shr_m (shr_1 (shr_record_of_loc (n / d) (new_location d (n mod d)))))
    (loc_of_shr_record
       (shr_1 (shr_record_of_loc (n / d) (new_location d (n mod d)))))
  = round_ratio n (2 * d).
Proof.
  intros Hd Hn. pose proof (Z.mod_pos_bound n d Hd) as Hr.
  pose proof (Z.div_mod n d ltac:(lia)) as Hdm.
  assert (Hq0 : 0 <= n / d) by (apply Z.div_pos; lia).
  pose proof (Z.div_mod (n / d) 2 ltac:(lia)) as Hq2.
  pose proof (Z.mod_pos_bound (n / d) 2 ltac:(lia)) as Hb.
  assert (HQ : n / (2 * d) = n / d / 2)
    by (rewrite (Z.mul_comm 2 d), Z.div_div by lia; reflexivity).
  assert (HR : n mod (2 * d) = (n / d mod 2) * d + n mod d).
  { symmetry. apply (Z.mod_unique_pos _ _ (n / d / 2)); nia. }
  assert (Hodd : Z.odd (n / d) = (n / d mod 2 =? 1)).
  { rewrite Zmod_odd. now destruct (Z.odd (n / d)). }
  rewrite new_location_spec by assumption. unfold round_ratio.
  rewrite HQ, HR.
  assert (Hrec : forall l,
            exists r s, shr_record_of_loc (n / d) l
                        = Build_shr_record (n / d) r s
                        /\ (r || s = negb match l with loc_Exact => true
                                                     | _ => false end))
    by (intros [|[ | | ]]; simpl; eauto).
  destruct (Hrec (if n mod d =? 0 then loc_Exact
                  else loc_Inexact (2 * (n mod d) ?= d)))
    as (r0 & s0 & -> & Hrs).
  rewrite shr_1_nonneg by exact Hq0. cbn [shr_m]. rewrite Hrs, Hodd.
  set (b := n / d mod 2) in *. set (r := n mod d) in *.
  set (Q := n / d / 2) in *.
  assert (Hbc : b = 0 \/ b = 1) by lia.
  clearbody b r Q. clear Hrec Hrs HQ HR Hdm Hq2 Hodd.
  destruct Hbc as [-> | ->]; destruct (r =? 0) eqn:E0;
    rewrite ?Z.eqb_eq, ?Z.eqb_neq in E0; cbn [negb Z.eqb Pos.eqb loc_of_shr_record
                                               round_nearest_even].
  - subst r. replace (2 * d <? 2 * (0 * d + 0)) with false
      by (symmetry; apply Z.ltb_ge; lia).
    replace (2 * (0 * d + 0) =? 2 * d) with false
      by (symmetry; apply Z.eqb_neq; lia).
    reflexivity.
  - replace (2 * d <? 2 * (0 * d + r)) with false
      by (symmetry; apply Z.ltb_ge; lia).
    replace (2 * (0 * d + r) =? 2 * d) with false
      by (symmetry; apply Z.eqb_neq; lia).
    reflexivity.
  - subst r. replace (2 * d <? 2 * (1 * d + 0)) with false
      by (symmetry; apply Z.ltb_ge; lia).
    replace (2 * (1 * d + 0) =? 2 * d) with true
      by (symmetry; apply Z.eqb_eq; lia).
    cbn [orb andb]. rewrite <- Z.negb_odd. now destruct (Z.odd Q).
  - replace (2 * d <? 2 * (1 * d + r)) with true
      by (symmetry; apply Z.ltb_lt; lia).
    reflexivity.
Qed.

Lemma round_ratio_bounds n d : n / d <= round_ratio n d <= n / d + 1.
Proof.
  unfold round_ratio. destruct (_ || _); lia.
Qed.

Lemma shr_record_of_loc_m m l : shr_m (shr_record_of_loc m l) = m.
Proof. now destruct l as [|[ | | ]]. Qed.

Lemma loc_of_shr_record_of_loc m l :
  loc_of_shr_record (shr_record_of_loc m l) = l.
Proof. now destruct l as [|[ | | ]]. Qed.

(** The quotient of two positive normalised values: the ratio of the
    mantissas, scaled to 24 or 25 bits, is rounded to the nearest integer,
    ties to even, and put in canonical form. *)
Lemma div_round pa ea pb eb :
  2 ^ 23 <= Z.pos pa < 2 ^ 24 -> 2 ^ 23 <= Z.pos pb < 2 ^ 24 ->
  -23 <= ea <= 9 -> -23 <= eb <= 9 ->
  let k := if Z.pos pa <? Z.pos pb then 0 else 1 in
  Float32.div (S754_finite false pa ea) (S754_finite false pb eb)
  = norm_finite false (round_ratio (Z.pos pa * 2 ^ 24) (2 ^ k * Z.pos pb))
      (ea - eb - 24 + k)
  /\ 2 ^ 23 <= round_ratio (Z.pos pa * 2 ^ 24) (2 ^ k * Z.pos pb) <= 2 ^ 24.
Proof.
  intros Ha Hb Hea Heb k.
  rewrite div_finite by lia.
  set (n := Z.pos pa * 2 ^ 24).
  assert (Hn : 0 <= n) by (unfold n; lia).
  assert (Hq : 2 ^ 23 <= n / Z.pos pb < 2 ^ 25).
  { unfold n. split.
    - apply Z.div_le_lower_bound; lia.
    - apply Z.div_lt_upper_bound; lia. }
  unfold k. destruct (Z.pos pa <? Z.pos pb) eqn:E.
  - apply Z.ltb_lt in E.
    assert (Hq24 : n / Z.pos pb < 2 ^ 24)
      by (unfold n; apply Z.div_lt_upper_bound; lia).
    destruct (binary_round_aux_normal false (n / Z.pos pb) (ea - eb - 24)
                (new_location (Z.pos pb) (n mod Z.pos pb)) 0)
      as (_ & _ & ->); try lia.
    change (Z.to_nat 0) with 0%nat. cbn [Nat.iter nat_rect].
    rewrite shr_record_of_loc_m, loc_of_shr_record_of_loc.
    rewrite round_nearest_even_round_ratio by lia.
    change (2 ^ 0) with 1. rewrite Z.mul_1_l.
    split; [reflexivity|].
    pose proof (round_ratio_bounds n (Z.pos pb)). lia.
  - apply Z.ltb_ge in E.
    assert (Hq24 : 2 ^ 24 <= n / Z.pos pb)
      by (unfold n; apply Z.div_le_lower_bound; lia).
    destruct (binary_round_aux_normal false (n / Z.pos pb) (ea - eb - 24)
                (new_location (Z.pos pb) (n mod Z.pos pb)) 1)
      as (_ & Hq1 & ->);
      try (change (23 + 1) with 24; change (24 + 1) with 25; lia).
    change (Z.to_nat 1) with 1%nat. rewrite Nat.iter_succ.
    cbn [Nat.iter nat_rect].
    rewrite round_nearest_even_shifted by lia.
    change (2 ^ 1) with 2.
    split; [reflexivity|].
    pose proof (round_ratio_bounds n (2 * Z.pos pb)) as B.
    rewrite (Z.mul_comm 2 (Z.pos pb)), <- Z.div_div in B by lia.
    rewrite (Z.mul_comm 2 (Z.pos pb)).
    change (2 ^ 1) with 2 in Hq1. lia.
Qed.

(** Rounding to the nearest integer is monotone in the ratio. *)
Lemma round_ratio_mono n1 d1 n2 d2 :
  0 < d1 -> 0 < d2 -> 0 <= n1 -> 0 <= n2 ->
  n1 * d2 <= n2 * d1 ->
  round_ratio n1 d1 <= round_ratio n2 d2.
Proof.
  intros Hd1 Hd2 Hn1 Hn2 Hle. unfold round_ratio.
  pose proof (Z.div_mod n1 d1 ltac:(lia)) as E1.
  pose proof (Z.div_mod n2 d2 ltac:(lia)) as E2.
  pose proof (Z.mod_pos_bound n1 d1 Hd1) as B1.
  pose proof (Z.mod_pos_bound n2 d2 Hd2) as B2.
  set (q1 := n1 / d1) in *. set (r1 := n1 mod d1) in *.
  set (q2 := n2 / d2) in *. set (r2 := n2 mod d2) in *.
  clearbody q1 r1 q2 r2.
  assert (Hq : q1 <= q2).
  { destruct (Z_le_gt_dec q1 q2) as [H|H]; [exact H|exfalso].
    assert (q2 + 1 <= q1) by lia.
    assert (d1 * d2 * (q2 + 1) <= d1 * d2 * q1) by (apply Z.mul_le_mono_nonneg_l; nia).
    nia. }
  destruct (Z.eq_dec q1 q2) as [-> | Hne].
  - assert (Hr : r1 * d2 <= r2 * d1) by nia.
    destruct (d1 <? 2 * r1) eqn:A1, (2 * r1 =? d1) eqn:A2,
      (d2 <? 2 * r2) eqn:A3, (2 * r2 =? d2) eqn:A4, (Z.odd q2);
      cbn [orb andb]; try lia; exfalso;
      rewrite ?Z.ltb_lt, ?Z.ltb_ge, ?Z.eqb_eq, ?Z.eqb_neq in *; nia.
  - destruct (_ || _), (_ || _); lia.
Qed.

Lemma leb_finite_spec m1 e1 m2 e2 :
  0 < m1 -> 0 < m2 ->
  e1 < e2 \/ (e1 = e2 /\ m1 <= m2) ->
  Float32.leb (S754_finite false (Z.to_pos m1) e1)
    (S754_finite false (Z.to_pos m2) e2) = true.
Proof.
  intros H1 H2 H. unfold Float32.leb, SFcompare.
  change (Pos.compare_cont Eq (Z.to_pos m1) (Z.to_pos m2))
    with (Pos.compare (Z.to_pos m1) (Z.to_pos m2)).
  rewrite <- Z2Pos.inj_compare by assumption.
  destruct (Z.compare_spec e1 e2); try reflexivity; try lia.
  destruct (Z.compare_spec m1 m2); try reflexivity; lia.
Qed.

(** Canonical forms compare as their exponents and mantissas do. *)
Lemma leb_norm_finite m1 e1 m2 e2 :
  2 ^ 23 <= m1 <= 2 ^ 24 -> 2 ^ 23 <= m2 <= 2 ^ 24 ->
  e1 < e2 \/ (e1 = e2 /\ m1 <= m2) ->
  Float32.leb (norm_finite false m1 e1) (norm_finite false m2 e2) = true.
Proof.
  intros H1 H2 H. unfold norm_finite.
  destruct (m1 =? 2 ^ 24) eqn:E1, (m2 =? 2 ^ 24) eqn:E2;
    rewrite ?Z.eqb_eq, ?Z.eqb_neq in *;
    apply leb_finite_spec; lia.
Qed.

(** Division is antitone in the divisor. *)
Lemma div_antitone pa ea pb eb pc ec :
  2 ^ 23 <= Z.pos pa < 2 ^ 24 -> 2 ^ 23 <= Z.pos pb < 2 ^ 24 ->
  2 ^ 23 <= Z.pos pc < 2 ^ 24 ->
  -23 <= ea <= 9 -> -23 <= eb <= 9 -> -23 <= ec <= 9 ->
  parts_le (Z.pos pb, eb) (Z.pos pc, ec) ->
  Float32.leb
    (Float32.div (S754_finite false pa ea) (S754_finite false pc ec))
    (Float32.div (S754_finite false pa ea) (S754_finite false pb eb)) = true.
Proof.
  intros Ha Hb Hc Hea Heb Hec Hle. unfold parts_le in Hle.
  cbn [fst snd] in Hle.
  destruct (div_round pa ea pb eb Ha Hb Hea Heb) as [-> Bb].
  destruct (div_round pa ea pc ec Ha Hc Hea Hec) as [-> Bc].
  apply leb_norm_finite; try assumption.
  set (n := Z.pos pa * 2 ^ 24) in *.
  assert (Hn : 0 <= n) by (unfold n; lia).
  assert (Hmono : forall db dc, 0 < db -> db <= dc ->
            round_ratio n dc <= round_ratio n db).
  { intros db dc H0 Hd. apply round_ratio_mono; try lia.
    apply Z.mul_le_mono_nonneg_l; lia. }
  clearbody n.
  destruct (Z.pos pa <? Z.pos pb) eqn:Eb, (Z.pos pa <? Z.pos pc) eqn:Ec;
    rewrite ?Z.ltb_lt, ?Z.ltb_ge in *;
    change (2 ^ 0) with 1 in *; change (2 ^ 1) with 2 in *;
    destruct Hle as [Hlt | [Heq Hm]];
    try (left; lia);
    try (right; split; [lia|]; apply Hmono; lia).
  destruct (Z.eq_dec ec (eb + 1)) as [He | He]; [|left; lia].
  right. split; [lia|]. apply Hmono; lia.
Qed.

(** The quotient by the conversion of a larger 32-bit integer is not
    larger. *)
Lemma ratio_antitone a b c :
  0 <= a < 2 ^ 32 -> 0 < b -> b <= c -> c < 2 ^ 32 ->
  Float32.leb (Float32.div (Float32.of_Z a) (Float32.of_Z c))
    (Float32.div (Float32.of_Z a) (Float32.of_Z b)) = true.
Proof.
  intros Ha Hb Hbc Hc.
  pose proof (nearest_parts_mono b c ltac:(lia) ltac:(lia) ltac:(lia)) as Hle.
  destruct (of_Z_normal b ltac:(lia)) as (pb & eb & -> & Bb & Eb & Pb).
  destruct (of_Z_normal c ltac:(lia)) as (pc & ec & -> & Bc & Ec & Pc).
  rewrite <- Pb, <- Pc in Hle.
  destruct (Z.eq_dec a 0) as [-> | Ha0]; [reflexivity|].
  destruct (of_Z_normal a ltac:(lia)) as (pa & ea & -> & Ba & Ea & _).
  now apply div_antitone.
Qed.

(** X19: the intersection over union never exceeds the precision nor the
    recall: for counters whose sum stays below [2^32] the value returned by
    [computeIntersectionOverUnion] is at most the values returned by
    [computePrecision] and by [computeRecall]. *)
Theorem iou_at_most_precision_and_recall tp fp fn :
  UInt.in_range tp -> UInt.in_range fp -> UInt.in_range fn ->
  tp + fp + fn < UInt.modulus ->
  Float32.leb (computeIntersectionOverUnion tp fp fn) (computePrecision tp fp)
  = true
  /\ Float32.leb (computeIntersectionOverUnion tp fp fn) (computeRecall tp fn)
     = true.
Proof.
  intros Htp Hfp Hfn Hsum.
  rewrite computeIntersectionOverUnion_no_wrap by assumption.
  unfold UInt.in_range, UInt.modulus in *.
  rewrite computePrecision_no_wrap
    by (unfold UInt.in_range, UInt.modulus; lia).
  rewrite computeRecall_no_wrap
    by (unfold UInt.in_range, UInt.modulus; lia).
  assert (Hone : forall a d, 0 <= a <= d -> 0 < d < 2 ^ 32 ->
            Float32.leb (Float32.div (Float32.of_Z a) (Float32.of_Z d))
              Float32.one = true).
  { intros a d Had Hd.
    pose proof (ratio_in_unit_interval a d Had Hd) as U.
    unfold in_unit_interval in U. now apply andb_true_iff in U as [_ U]. }
  destruct (tp + fp + fn =? 0) eqn:E; rewrite ?Z.eqb_eq, ?Z.eqb_neq in E.
  - replace (tp + fp =? 0) with true by (symmetry; apply Z.eqb_eq; lia).
    replace (tp + fn =? 0) with true by (symmetry; apply Z.eqb_eq; lia).
    split; reflexivity.
  - split.
    + destruct (tp + fp =? 0) eqn:E1; rewrite ?Z.eqb_eq, ?Z.eqb_neq in E1.
      * apply Hone; lia.
      * apply ratio_antitone; lia.
    + destruct (tp + fn =? 0) eqn:E1; rewrite ?Z.eqb_eq, ?Z.eqb_neq in E1.
      * apply Hone; lia.
      * apply ratio_antitone; lia.
Qed.

Lemma iou_at_most_precision_and_recall_witness :
  UInt.in_range 5 /\ UInt.in_range 2 /\ UInt.in_range 3
  /\ Float32.leb (computeIntersectionOverUnion 5 2 3) (computePrecision 5 2)
     = true
  /\ Float32.leb (computeIntersectionOverUnion 5 2 3) (computeRecall 5 3)
     = true.
Proof.
  assert (H5 : UInt.in_range 5) by (unfold UInt.in_range, UInt.modulus; lia).
  assert (H2 : UInt.in_range 2) by (unfold UInt.in_range, UInt.modulus; lia).
  assert (H3 : UInt.in_range 3) by (unfold UInt.in_range, UInt.modulus; lia).
  assert (Hs : 5 + 2 + 3 < UInt.modulus) by (unfold UInt.modulus; lia).
  split; [exact H5|]. split; [exact H2|]. split; [exact H3|].
  exact (iou_at_most_precision_and_recall 5 2 3 H5 H2 H3 Hs).
Defined.

(** X20: errors never raise a metric: for counters whose sums stay below
    [2^32], more false positives do not raise the precision, more false
    negatives do not raise the recall, and neither raises the intersection
    over union. *)
Theorem more_errors_do_not_raise_metrics tp fp fp' fn fn' :
  UInt.in_range tp -> 0 <= fp <= fp' -> 0 <= fn <= fn' ->
  tp + fp' + fn' < UInt.modulus ->
  Float32.leb (computePrecision tp fp') (computePrecision tp fp) = true
  /\ Float32.leb (computeRecall tp fn') (computeRecall tp fn) = true
  /\ Float32.leb (computeIntersectionOverUnion tp fp' fn')
       (computeIntersectionOverUnion tp fp fn) = true.
Proof.
  unfold UInt.in_range, UInt.modulus. intros Htp Hfp Hfn Hsum.
  rewrite (computePrecision_no_wrap tp fp'), (computePrecision_no_wrap tp fp),
    (computeRecall_no_wrap tp fn'), (computeRecall_no_wrap tp fn),
    (computeIntersectionOverUnion_no_wrap tp fp' fn'),
    (computeIntersectionOverUnion_no_wrap tp fp fn)
    by (unfold UInt.in_range, UInt.modulus; lia).
  assert (Hone : forall a d, 0 <= a <= d -> 0 < d < 2 ^ 32 ->
            Float32.leb (Float32.div (Float32.of_Z a) (Float32.of_Z d))
              Float32.one = true).
  { intros a d Had Hd.
    pose proof (ratio_in_unit_interval a d Had Hd) as U.
    unfold in_unit_interval in U. now apply andb_true_iff in U as [_ U]. }
  assert (Hcmp : forall d d', tp <= d -> d <= d' -> d' < 2 ^ 32 ->
            Float32.leb
              (if d' =? 0 then Float32.one
               else Float32.div (Float32.of_Z tp) (Float32.of_Z d'))
              (if d =? 0 then Float32.one
               else Float32.div (Float32.of_Z tp) (Float32.of_Z d)) = true).
  { intros d d' H1 H2 H3.
    destruct (d' =? 0) eqn:E'; rewrite ?Z.eqb_eq, ?Z.eqb_neq in E'.
    - replace (d =? 0) with true by (symmetry; apply Z.eqb_eq; lia).
      reflexivity.
    - destruct (d =? 0) eqn:E; rewrite ?Z.eqb_eq, ?Z.eqb_neq in E.
      + apply Hone; lia.
      + apply ratio_antitone; lia. }
  split; [|split]; apply Hcmp; lia.
Qed.

Lemma more_errors_do_not_raise_metrics_witness :
  UInt.in_range 5
  /\ Float32.leb (computePrecision 5 4) (computePrecision 5 2) = true.
Proof.
  assert (H5 : UInt.in_range 5) by (unfold UInt.in_range, UInt.modulus; lia).
  split; [exact H5|].
  refine (proj1 (more_errors_do_not_raise_metrics 5 2 4 0 0 H5 _ _ _));
    unfold UInt.modulus; lia.
Defined.

(** ** The buckets over a run *)

Lemma writeScoresToFile_ranges ev cloud w :
  ranges_ (fst (fst (writeScoresToFile ev cloud w)))
  = if evaluate_ranges (config_ ev)
    then collect_ranges (ranges_ ev)
           (snd (filterEvaluatedPoints (config_ ev) cloud))
    else ranges_ ev.
Proof.
  unfold writeScoresToFile. rewrite scores_row_closed.
  now destruct (evaluate_ranges (config_ ev)).
Qed.

Section BucketProperties.
Variable GroundTruthHandler : Type.
Variable labelCloudInfoIfAvailable :
  GroundTruthHandler -> CloudInfo -> bool * CloudInfo * GroundTruthHandler.

Local Abbreviation frame :=
  (evaluateFrame GroundTruthHandler labelCloudInfoIfAvailable).
Local Abbreviation run :=
  (evaluateFrames GroundTruthHandler labelCloudInfoIfAvailable).

Lemma evaluateFrame_buckets report ev h w cloud o :
  length (ranges_ ev) = 4%nat ->
  bucket_at (ranges_ ev) (bucket_index o)
  `prefix_of`
  bucket_at (ranges_ (fst (fst (fst (frame report (ev, h, w) cloud)))))
    (bucket_index o).
Proof.
  intros Hlen.
  destruct (labelCloudInfoIfAvailable h cloud) as [[[|] cloud1] h1] eqn:Hl.
  - rewrite (evaluateFrame_available_eq GroundTruthHandler
               labelCloudInfoIfAvailable report ev h w cloud cloud1 h1 Hl).
    cbn zeta. cbn [fst snd ranges_]. rewrite writeScoresToFile_ranges.
    destruct (evaluate_ranges (config_ ev)); [|reflexivity].
    rewrite collect_ranges_bucket by exact Hlen. now apply prefix_app_r.
  - rewrite (evaluateFrame_unavailable GroundTruthHandler
               labelCloudInfoIfAvailable report ev h w cloud cloud1 h1 Hl).
    reflexivity.
Qed.

(** X21: the buckets never shrink: over any run of an evaluator with four
    buckets, what a bucket held at the start is a prefix of what it holds
    at the end, and there are still four buckets. *)
Theorem buckets_grow_over_a_run frames ev h w o :
  length (ranges_ ev) = 4%nat ->
  length (ranges_ (fst (fst (run (ev, h, w) frames)))) = 4%nat
  /\ bucket_at (ranges_ ev) (bucket_index o)
     `prefix_of`
     bucket_at (ranges_ (fst (fst (run (ev, h, w) frames)))) (bucket_index o).
Proof.
  revert ev h w. induction frames as [|[report cloud] frames IH];
    intros ev h w Hlen.
  - split; [exact Hlen|reflexivity].
  - cbn [evaluateFrames].
    pose proof (evaluateFrame_buckets report ev h w cloud o Hlen) as P.
    pose proof (evaluateFrame_world GroundTruthHandler
                  labelCloudInfoIfAvailable report ev h w cloud) as F.
    destruct (frame report (ev, h, w) cloud) as [[[ev1 h1] w1] cloud1].
    cbn zeta in F. cbn [fst snd] in F, P.
    destruct F as (_ & _ & _ & F4 & _).
    destruct (IH ev1 h1 w1 ltac:(congruence)) as [I1 I2].
    split; [exact I1|]. etrans; eassumption.
Qed.

End BucketProperties.

Lemma buckets_grow_over_a_run_witness :
  length (ranges_ ranges_evaluator) = 4%nat
  /\ length
       (ranges_ (fst (fst (evaluateFrames unit even_handler
                             (ranges_evaluator, tt, empty_world)
                             three_frames)))) = 4%nat.
Proof.
  split; [reflexivity|].
  exact (proj1 (buckets_grow_over_a_run unit even_handler three_frames
                  ranges_evaluator tt empty_world TruePositive eq_refl)).
Defined.
